(** * OECD tax-wedge charts: the two plotting scripts and their view data

    A shallow embedding of the chart-building code of
    [OECD_tax_wedge_by_taxpayer_type.py] (module [ByTaxpayerType]) and of
    [oecd_tax_wedge_all_countries_all_incomes.py] (module [AllIncomes]).

    Conventions.
    - A spreadsheet cell holding a number is a rational ([Q]): every finite
      float denotes one, and comparisons of non-NaN floats agree with the
      order of the rationals they denote.  A missing cell (NaN) is [None].
      Rounding of float arithmetic is not modelled: where the code computes
      with floats (gap filling, the padded axis limit) the model computes
      exactly, and the statements are limited to what rounding leaves true.
    - A Python list built by a loop of [append] calls is the list of the
      appended values in order.
    - A dict whose keys are a fixed set of attribute names is an association
      list over an enumeration of these names; [sorted_data] and [dfs], whose
      keys are data, are [gmap]s.
    - What the chart library does with a button's arguments when the button
      is clicked ([restyle], [update]) is modelled after the library's
      documented behaviour: only the attributes named in the argument are
      assigned, trace by trace. *)

From Stdlib Require Import QArith Lqa Ascii String.
From Stdlib Require Import Sorting.Sorted Sorting.Permutation.
From stdpp Require Import base list strings gmap.

(** ** Shared vocabulary *)

(** The three values the [visible] attribute of a trace takes in the scripts:
    [True], [False] and ['legendonly']. *)
Inductive visibility := VisTrue | VisFalse | VisLegendonly.

Global Instance visibility_eq_dec : EqDecision visibility.
Proof. solve_decision. Defined.

(** [str.replace('_', ' ')] and [str.title()] on ASCII text. *)
Definition is_lower (c : ascii) : bool :=
  (97 <=? nat_of_ascii c)%nat && (nat_of_ascii c <=? 122)%nat.
Definition is_upper (c : ascii) : bool :=
  (65 <=? nat_of_ascii c)%nat && (nat_of_ascii c <=? 90)%nat.
Definition to_upper (c : ascii) : ascii :=
  if is_lower c then ascii_of_nat (nat_of_ascii c - 32) else c.
Definition to_lower (c : ascii) : ascii :=
  if is_upper c then ascii_of_nat (nat_of_ascii c + 32) else c.

Fixpoint replace_underscore (s : string) : string :=
  match s with
  | EmptyString => EmptyString
  | String c s' =>
      String (if Ascii.eqb c "_" then " "%char else c) (replace_underscore s')
  end.

(** [title_from prev_cased s]: a cased character is upper-cased when the
    character before it is not cased, lower-cased otherwise. *)
Fixpoint title_from (prev_cased : bool) (s : string) : string :=
  match s with
  | EmptyString => EmptyString
  | String c s' =>
      let cased := is_lower c || is_upper c in
      String (if prev_cased then to_lower c else to_upper c)
             (title_from cased s')
  end.

Definition title (s : string) : string := title_from false s.

Definition button_label (name : string) : string :=
  title (replace_underscore name).

(** Non-increasing sequences of numbers. *)
Definition non_increasing (l : list Q) : Prop :=
  StronglySorted (fun a b => (b <= a)%Q) l.

(** ** Script 1: tax wedge by taxpayer type *)

Module ByTaxpayerType.

Definition connector_color : string := "gray".
Definition highlight_color : string := "red".

(** A spreadsheet row restricted to columns A-D, as [read_excel] with
    [usecols="A:D"] and [.iloc[:, [0, 1, 2, 3]]] deliver it. *)
Record raw_row := {
  cell_A : option string;
  cell_B : option Q;
  cell_C : option Q;
  cell_D : option Q
}.

(** A row of [df] after [dropna] and the renaming of the columns. *)
Record row := {
  Country : string;
  single_worker : Q;
  family_single_earner : Q;
  family_two_earners : Q
}.

Definition complete_row (r : raw_row) : option row :=
  match cell_A r, cell_B r, cell_C r, cell_D r with
  | Some c, Some x, Some y, Some z =>
      Some {| Country := c; single_worker := x;
              family_single_earner := y; family_two_earners := z |}
  | _, _, _, _ => None
  end.

(** [.dropna()]: rows with any missing cell are dropped. *)
Definition dropna (sheet : list raw_row) : list row := omap complete_row sheet.

(** The three sort columns. *)
Inductive column := Single_worker | Family_single_earner | Family_two_earners.

Global Instance column_eq_dec : EqDecision column.
Proof. solve_decision. Defined.

Definition column_name (c : column) : string :=
  match c with
  | Single_worker => "single_worker"
  | Family_single_earner => "family_single_earner"
  | Family_two_earners => "family_two_earners"
  end.

Definition sort_columns_list : list column :=
  [Single_worker; Family_single_earner; Family_two_earners].

(** [row[col_name]] *)
Definition measure (c : column) (r : row) : Q :=
  match c with
  | Single_worker => single_worker r
  | Family_single_earner => family_single_earner r
  | Family_two_earners => family_two_earners r
  end.

(** [df.sort_values(col_name, ascending=False).reset_index(drop=True)]:
    the rows in descending order of the column.  The order of rows with
    equal keys is the dataframe library's business; here they keep their
    original order, and no statement below depends on it. *)
Fixpoint insert_desc (c : column) (r : row) (l : list row) : list row :=
  match l with
  | [] => [r]
  | r' :: l' =>
      if Qle_bool (measure c r') (measure c r) then r :: l
      else r' :: insert_desc c r l'
  end.

Fixpoint sort_values (c : column) (df : list row) : list row :=
  match df with
  | [] => []
  | r :: df' => insert_desc c r (sort_values c df')
  end.

(** The value stored in [sorted_data[col_name]]. *)
Record view := {
  trace_x_values : list (list Q);
  trace_y_values : list (list string);
  trace_line_colors : list (option string);
  trace_line_widths : list (option Q);
  tick_labels : list string;
  country_order : list string
}.

Definition is_uk (country_name : string) : bool :=
  bool_decide (country_name = "United Kingdom").

Definition line_color (r : row) : string :=
  if is_uk (Country r) then highlight_color else connector_color.

Definition line_width (r : row) : Q :=
  if is_uk (Country r) then 3 else (3 # 2).

Definition tick_label (country_name : string) : string :=
  if is_uk country_name
  then "<b><span style='color:" +:+ highlight_color +:+ ";'>"
       +:+ country_name +:+ "</span></b>"
  else country_name.

(** The body of the loop over [sort_columns_list]. *)
Definition build_view (c : column) (df : list row) : view :=
  let df_sorted := sort_values c df in
  {| trace_x_values :=
       ((fun r => [single_worker r; family_single_earner r;
                   family_two_earners r]) <$> df_sorted)
       ++ [single_worker <$> df_sorted;
           family_single_earner <$> df_sorted;
           family_two_earners <$> df_sorted];
     trace_y_values :=
       ((fun r => [Country r; Country r; Country r]) <$> df_sorted)
       ++ [Country <$> df_sorted; Country <$> df_sorted;
           Country <$> df_sorted];
     trace_line_colors :=
       ((fun r => Some (line_color r)) <$> df_sorted) ++ [None; None; None];
     trace_line_widths :=
       ((fun r => Some (line_width r)) <$> df_sorted) ++ [None; None; None];
     tick_labels := (fun r => tick_label (Country r)) <$> df_sorted;
     country_order := Country <$> df_sorted |}.

(** [sorted_data], filled by the loop over [sort_columns_list]. *)
Definition sorted_data (df : list row) : gmap string view :=
  foldl (fun d c => <[column_name c := build_view c df]> d) ∅
        sort_columns_list.

Definition num_countries (df : list row) : nat := length df.

(** *** The figure *)

(** A scatter trace, restricted to the attributes the script sets or later
    restyles.  [visible] is not set when the traces are added, so it has the
    chart library's default, [True]. *)
Record trace := {
  tr_x : list Q;
  tr_y : list string;
  tr_mode : string;
  tr_line_color : option string;
  tr_line_width : option Q;
  tr_name : option string;
  tr_visible : visibility
}.

Definition initial_sort_column : string := "single_worker".

(** One connector trace: [initial_data[...][i]] for the four arrays; an index
    out of range raises, here [None]. *)
Definition connector_trace (initial_data : view) (i : nat) : option trace :=
  xs ← trace_x_values initial_data !! i;
  ys ← trace_y_values initial_data !! i;
  c ← trace_line_colors initial_data !! i;
  w ← trace_line_widths initial_data !! i;
  Some {| tr_x := xs; tr_y := ys; tr_mode := "lines";
          tr_line_color := c; tr_line_width := w;
          tr_name := None; tr_visible := VisTrue |}.

Definition point_trace (initial_data : view) (i : nat) (name : string)
  : option trace :=
  xs ← trace_x_values initial_data !! i;
  ys ← trace_y_values initial_data !! i;
  Some {| tr_x := xs; tr_y := ys; tr_mode := "markers";
          tr_line_color := None; tr_line_width := None;
          tr_name := Some name; tr_visible := VisTrue |}.

(** The traces of [fig] in the order of the [add_trace] calls. *)
Definition fig_traces (df : list row) : option (list trace) :=
  initial_data ← sorted_data df !! initial_sort_column;
  connectors ← mapM (connector_trace initial_data) (seq 0 (num_countries df));
  p0 ← point_trace initial_data (num_countries df) "Single worker";
  p1 ← point_trace initial_data (num_countries df + 1) "Single-earner family";
  p2 ← point_trace initial_data (num_countries df + 2) "Two-earner family";
  Some (connectors ++ [p0; p1; p2]).

(** *** Interactive controls *)

(** An entry [key: values] of a restyle dict, one constructor per key used in
    the script; the values are given per trace. *)
Inductive restyle_entry :=
  | Set_x (vals : list (list Q))
  | Set_y (vals : list (list string))
  | Set_line_color (vals : list (option string))
  | Set_line_width (vals : list (option Q))
  | Set_visible (vals : list visibility).

Definition entry_key (e : restyle_entry) : string :=
  match e with
  | Set_x _ => "x"
  | Set_y _ => "y"
  | Set_line_color _ => "line.color"
  | Set_line_width _ => "line.width"
  | Set_visible _ => "visible"
  end.

(** An entry of a relayout dict. *)
Inductive relayout_entry :=
  | Set_ticktext (vals : list string)
  | Set_tickvals (vals : list string)
  | Set_autorange (val : string).

Definition relayout_key (e : relayout_entry) : string :=
  match e with
  | Set_ticktext _ => "yaxis.ticktext"
  | Set_tickvals _ => "yaxis.tickvals"
  | Set_autorange _ => "yaxis.autorange"
  end.

(** A dropdown button: [dict(label=..., method="update", args=[{...}, {...}])]. *)
Record button := {
  label : string;
  method : string;
  restyle_args : list restyle_entry;
  relayout_args : list relayout_entry
}.

Definition make_button (c : column) (data_for_button : view) : button :=
  {| label := button_label (column_name c);
     method := "update";
     restyle_args :=
       [Set_x (trace_x_values data_for_button);
        Set_y (trace_y_values data_for_button);
        Set_line_color (trace_line_colors data_for_button);
        Set_line_width (trace_line_widths data_for_button)];
     relayout_args :=
       [Set_ticktext (tick_labels data_for_button);
        Set_tickvals (country_order data_for_button);
        Set_autorange "reversed"] |}.

(** [buttons]: the loop over [sort_columns_list]; [sorted_data[sort_col_name]]
    raises on a missing key, here [None]. *)
Definition buttons (df : list row) : option (list button) :=
  mapM (fun c => make_button c <$> sorted_data df !! column_name c)
       sort_columns_list.

Definition connector_trace_indices (df : list row) : list nat :=
  seq 0 (num_countries df).

(** The single button of [toggle_connectors_button]: [method="restyle"] with
    [args] and [args2], each a restyle dict and a list of trace indices. *)
Record toggle_button := {
  toggle_label : string;
  toggle_method : string;
  args : list restyle_entry * list nat;
  args2 : list restyle_entry * list nat
}.

Definition all_trace_indices (df : list row) : list nat :=
  connector_trace_indices df
  ++ [num_countries df; num_countries df + 1; num_countries df + 2].

Definition toggle_connectors_button (df : list row) : toggle_button :=
  {| toggle_label := "Toggle Connectors";
     toggle_method := "restyle";
     args :=
       ([Set_visible (replicate (num_countries df) VisFalse
                      ++ [VisTrue; VisTrue; VisTrue])],
        all_trace_indices df);
     args2 :=
       ([Set_visible (replicate (num_countries df) VisTrue
                      ++ [VisTrue; VisTrue; VisTrue])],
        all_trace_indices df) |}.

(** *** What a click does to the chart *)

(** The part of the displayed chart the controls act on. *)
Record chart := {
  traces : list trace;
  ticktext : list string;
  tickvals : list string;
  autorange : string
}.

(** The value for the trace at position [pos] of the targeted traces: an
    array value is read cyclically. *)
Definition value_at {A} (vals : list A) (pos : nat) : option A :=
  vals !! (pos mod length vals)%nat.

(** Assign the attribute of one entry to one trace. *)
Definition restyle_trace (e : restyle_entry) (pos : nat) (tr : trace) : trace :=
  match e with
  | Set_x vals =>
      match value_at vals pos with
      | Some v =>
          {| tr_x := v; tr_y := tr_y tr; tr_mode := tr_mode tr;
             tr_line_color := tr_line_color tr;
             tr_line_width := tr_line_width tr;
             tr_name := tr_name tr; tr_visible := tr_visible tr |}
      | None => tr
      end
  | Set_y vals =>
      match value_at vals pos with
      | Some v =>
          {| tr_x := tr_x tr; tr_y := v; tr_mode := tr_mode tr;
             tr_line_color := tr_line_color tr;
             tr_line_width := tr_line_width tr;
             tr_name := tr_name tr; tr_visible := tr_visible tr |}
      | None => tr
      end
  | Set_line_color vals =>
      match value_at vals pos with
      | Some v =>
          {| tr_x := tr_x tr; tr_y := tr_y tr; tr_mode := tr_mode tr;
             tr_line_color := v;
             tr_line_width := tr_line_width tr;
             tr_name := tr_name tr; tr_visible := tr_visible tr |}
      | None => tr
      end
  | Set_line_width vals =>
      match value_at vals pos with
      | Some v =>
          {| tr_x := tr_x tr; tr_y := tr_y tr; tr_mode := tr_mode tr;
             tr_line_color := tr_line_color tr;
             tr_line_width := v;
             tr_name := tr_name tr; tr_visible := tr_visible tr |}
      | None => tr
      end
  | Set_visible vals =>
      match value_at vals pos with
      | Some v =>
          {| tr_x := tr_x tr; tr_y := tr_y tr; tr_mode := tr_mode tr;
             tr_line_color := tr_line_color tr;
             tr_line_width := tr_line_width tr;
             tr_name := tr_name tr; tr_visible := v |}
      | None => tr
      end
  end.

(** One entry applied to the traces listed in [indices]: the trace
    [indices[pos]] gets the value for position [pos]. *)
Fixpoint restyle_entry_from (e : restyle_entry) (pos : nat) (indices : list nat)
  (trs : list trace) : list trace :=
  match indices with
  | [] => trs
  | i :: indices' =>
      restyle_entry_from e (S pos) indices' (alter (restyle_trace e pos) i trs)
  end.

(** [restyle]: every entry of the dict, over the listed traces. *)
Definition restyle (upd : list restyle_entry) (indices : list nat)
  (trs : list trace) : list trace :=
  foldl (fun acc e => restyle_entry_from e 0 indices acc) trs upd.

Definition relayout_one (ch : chart) (e : relayout_entry) : chart :=
  match e with
  | Set_ticktext v =>
      {| traces := traces ch; ticktext := v; tickvals := tickvals ch;
         autorange := autorange ch |}
  | Set_tickvals v =>
      {| traces := traces ch; ticktext := ticktext ch; tickvals := v;
         autorange := autorange ch |}
  | Set_autorange v =>
      {| traces := traces ch; ticktext := ticktext ch; tickvals := tickvals ch;
         autorange := v |}
  end.

(** Selecting a dropdown option: method [update] restyles all traces with
    the first dict and relayouts with the second. *)
Definition select_option (b : button) (ch : chart) : chart :=
  let ch' :=
    {| traces := restyle (restyle_args b) (seq 0 (length (traces ch)))
                         (traces ch);
       ticktext := ticktext ch; tickvals := tickvals ch;
       autorange := autorange ch |} in
  foldl relayout_one ch' (relayout_args b).

(** A click on the toggle button runs [restyle] with [args] or with [args2],
    depending on the state the chart library keeps for the button. *)
Inductive toggle_click := With_args | With_args2.

Definition click_toggle (t : toggle_button) (k : toggle_click) (ch : chart)
  : chart :=
  let a := match k with With_args => args t | With_args2 => args2 t end in
  {| traces := restyle (fst a) (snd a) (traces ch);
     ticktext := ticktext ch; tickvals := tickvals ch;
     autorange := autorange ch |}.

(** The chart as first displayed. *)
Definition initial_chart (df : list row) : option chart :=
  initial_data ← sorted_data df !! initial_sort_column;
  trs ← fig_traces df;
  Some {| traces := trs;
          ticktext := tick_labels initial_data;
          tickvals := country_order initial_data;
          autorange := "reversed" |}.

(** *** Vocabulary for the statements *)

(** The order the sorted rows are in. *)
Definition desc (c : column) (r1 r2 : row) : Prop :=
  (measure c r2 <= measure c r1)%Q.

(** The position of a measure in the triple of a connector and among the
    three point traces. *)
Definition column_position (c : column) : nat :=
  match c with
  | Single_worker => 0
  | Family_single_earner => 1
  | Family_two_earners => 2
  end.

(** The x triple of the connector of a row. *)
Definition connector_x (r : row) : list Q :=
  [single_worker r; family_single_earner r; family_two_earners r].

(** The table of the concrete scenario: France and Spain, no missing cell. *)
Definition france : raw_row :=
  {| cell_A := Some "France"; cell_B := Some (30 # 100);
     cell_C := Some (35 # 100); cell_D := Some (40 # 100) |}.

Definition spain : raw_row :=
  {| cell_A := Some "Spain"; cell_B := Some (28 # 100);
     cell_C := Some (30 # 100); cell_D := Some (45 # 100) |}.

(** What the scenario asks of the view sorted by the third measure. *)
Definition scenario_view (v : view) : Prop :=
  country_order v = ["Spain"; "France"] /\
  tick_labels v = ["Spain"; "France"] /\
  take 2 (trace_line_colors v) = [Some connector_color; Some connector_color] /\
  take 2 (trace_line_widths v) = [Some (3 # 2); Some (3 # 2)] /\
  (Some highlight_color ∉ trace_line_colors v) /\
  (Some 3%Q ∉ trace_line_widths v).

(** The visibility of the traces of a chart, in trace order. *)
Definition visibilities (ch : chart) : list visibility :=
  tr_visible <$> traces ch.

(** The visibility the connectors get from a click on the toggle. *)
Definition toggled_to (k : toggle_click) : visibility :=
  match k with With_args => VisFalse | With_args2 => VisTrue end.

(** A chart with [num_countries df + 3] traces whose visibilities are
    [vis]: the initial chart with the visibilities replaced. *)
Definition with_visibilities (vis : list visibility) (ch : chart) : chart :=
  {| traces := restyle [Set_visible vis] (seq 0 (length (traces ch)))
                       (traces ch);
     ticktext := ticktext ch; tickvals := tickvals ch;
     autorange := autorange ch |}.

(** The sentence "every option of the sort dropdown restores the connectors
    to visible": whatever the chart shows, after an option is selected the
    connector traces are visible. *)
Definition dropdown_restores_connectors (df : list row) : Prop :=
  forall bs b ch i tr,
    buttons df = Some bs -> b ∈ bs ->
    length (traces ch) = (num_countries df + 3)%nat ->
    (i < num_countries df)%nat ->
    traces (select_option b ch) !! i = Some tr ->
    tr_visible tr = VisTrue.

(** The sentence "the toggle leaves the visibility of the three point traces
    unchanged, whatever it was". *)
Definition toggle_keeps_markers (df : list row) : Prop :=
  forall ch k i,
    length (traces ch) = (num_countries df + 3)%nat ->
    (num_countries df <= i < num_countries df + 3)%nat ->
    visibilities (click_toggle (toggle_connectors_button df) k ch) !! i
    = visibilities ch !! i.

(** The traces the figure is made of, written out row by row. *)
Definition connector_of_row (r : row) : trace :=
  {| tr_x := connector_x r; tr_y := [Country r; Country r; Country r];
     tr_mode := "lines";
     tr_line_color := Some (line_color r);
     tr_line_width := Some (line_width r);
     tr_name := None; tr_visible := VisTrue |}.

Definition points_of_rows (rows : list row) (f : row -> Q) (name : string)
  : trace :=
  {| tr_x := f <$> rows; tr_y := Country <$> rows; tr_mode := "markers";
     tr_line_color := None; tr_line_width := None;
     tr_name := Some name; tr_visible := VisTrue |}.

Definition traces_of_rows (rows : list row) : list trace :=
  (connector_of_row <$> rows)
  ++ [points_of_rows rows single_worker "Single worker";
      points_of_rows rows family_single_earner "Single-earner family";
      points_of_rows rows family_two_earners "Two-earner family"].

(** The chart of France and Spain with the visibility of its five traces
    set to [vis], as clicks on the toggle and on the legend leave it. *)
Definition france_spain_chart (vis : list visibility) : option chart :=
  with_visibilities vis <$> initial_chart (dropna [france; spain]).

(** The layout "connectors, then the three point traces" of the per-trace
    arrays of a view over [n] rows: [n] connector entries (an x triple, the
    country three times, a colour and a width), then three point entries
    (one value per row, no line style). *)
Definition connectors_then_points (n : nat) (v : view) : Prop :=
  length (trace_x_values v) = (n + 3)%nat /\
  length (trace_y_values v) = (n + 3)%nat /\
  length (trace_line_colors v) = (n + 3)%nat /\
  length (trace_line_widths v) = (n + 3)%nat /\
  (forall i, (i < n)%nat ->
     exists xs country colour width,
       trace_x_values v !! i = Some xs /\ length xs = 3%nat /\
       trace_y_values v !! i = Some [country; country; country] /\
       country_order v !! i = Some country /\
       trace_line_colors v !! i = Some (Some colour) /\
       trace_line_widths v !! i = Some (Some width)) /\
  (forall i, (n <= i < n + 3)%nat ->
     exists xs,
       trace_x_values v !! i = Some xs /\ length xs = n /\
       trace_y_values v !! i = Some (country_order v) /\
       trace_line_colors v !! i = Some None /\
       trace_line_widths v !! i = Some None).

(** The connectors of a view over [n] rows, each with its country: the
    country, the x triple, the colour and the width found at one position. *)
Definition view_connectors (n : nat) (v : view)
  : list (string * (list Q * (option string * option Q))) :=
  zip (country_order v)
      (zip (take n (trace_x_values v))
           (zip (take n (trace_line_colors v))
                (take n (trace_line_widths v)))).

(** The trace at position [i] once the arrays of a view are installed in it:
    coordinates and line style come from the view, the rest stays. *)
Definition installed_trace (v : view) (i : nat) (tr : trace) : option trace :=
  xs ← value_at (trace_x_values v) i;
  ys ← value_at (trace_y_values v) i;
  c ← value_at (trace_line_colors v) i;
  w ← value_at (trace_line_widths v) i;
  Some {| tr_x := xs; tr_y := ys; tr_mode := tr_mode tr;
          tr_line_color := c; tr_line_width := w;
          tr_name := tr_name tr; tr_visible := tr_visible tr |}.

(** The chart as first displayed, written out. *)
Definition shown_chart (df : list row) : chart :=
  let rows := sort_values Single_worker df in
  {| traces := traces_of_rows rows;
     ticktext := (fun r => tick_label (Country r)) <$> rows;
     tickvals := Country <$> rows;
     autorange := "reversed" |}.

(** The highlight markup around a tick label. *)
Definition marked_up (country_name : string) : string :=
  "<b><span style='color:red;'>" +:+ country_name +:+ "</span></b>".

(** The name of the point trace of a measure. *)
Definition point_trace_name (m : column) : string :=
  match m with
  | Single_worker => "Single worker"
  | Family_single_earner => "Single-earner family"
  | Family_two_earners => "Two-earner family"
  end.

(** The arrays of a view [v], whose rows are [rows], and the traces [trs] of
    the figure, built from the rows [rows0] of the initial view, line up
    position by position.  At a position [i] below [num_countries] the view
    holds the connector of its row [i] (x triple in the order of the three
    measures, country, colour and width) and the figure has the "lines"
    trace of the connector of the initial row [i].  At the position
    [num_countries + k] the view holds the values of the [k]-th measure over
    its rows, without line style, and the figure has the "markers" trace
    named for that same measure. *)
Definition aligned_with_traces (df rows rows0 : list row) (v : view)
  (trs : list trace) : Prop :=
  (forall i r,
     rows !! i = Some r ->
     trace_x_values v !! i
     = Some [single_worker r; family_single_earner r; family_two_earners r] /\
     trace_y_values v !! i = Some [Country r; Country r; Country r] /\
     trace_line_colors v !! i
     = Some (Some (if bool_decide (Country r = "United Kingdom")
                   then "red" else "gray")) /\
     trace_line_widths v !! i
     = Some (Some (if bool_decide (Country r = "United Kingdom")
                   then 3%Q else (3 # 2)%Q)) /\
     exists r0 tr,
       rows0 !! i = Some r0 /\ trs !! i = Some tr /\
       tr_mode tr = "lines" /\ tr_name tr = None /\
       tr_x tr = [single_worker r0; family_single_earner r0;
                  family_two_earners r0] /\
       tr_y tr = [Country r0; Country r0; Country r0]) /\
  (forall m : column,
     trace_x_values v !! (num_countries df + column_position m)%nat
     = Some (measure m <$> rows) /\
     trace_y_values v !! (num_countries df + column_position m)%nat
     = Some (Country <$> rows) /\
     trace_line_colors v !! (num_countries df + column_position m)%nat
     = Some None /\
     trace_line_widths v !! (num_countries df + column_position m)%nat
     = Some None /\
     exists tr,
       trs !! (num_countries df + column_position m)%nat = Some tr /\
       tr_mode tr = "markers" /\
       tr_name tr = Some (point_trace_name m) /\
       tr_x tr = measure m <$> rows0 /\
       tr_y tr = Country <$> rows0).

End ByTaxpayerType.

(** ** Script 2: tax wedge for all countries at all income levels *)

Module AllIncomes.

Definition sheet_names : list string :=
  ["single_no_children"; "single_two_children";
   "married_2_children"; "married_no_children"].

(** *** Loader *)

(** A spreadsheet cell, and a spreadsheet column from the header row
    ([header=8]) down. *)
Inductive cell := Blank | Text (s : string) | Number (q : Q).

Record sheet_column := {
  header : string;
  cells : list cell
}.

(** A worksheet is its columns A, B, C, ...; a workbook maps sheet names to
    worksheets. *)
Definition worksheet := list sheet_column.

(** The column-letter arithmetic behind [usecols='B:AO']: a column name is
    read in base 26 (A = 1), giving a 0-based position. *)
Definition excel2num (x : string) : option nat :=
  let step (acc : option nat) (c : ascii) : option nat :=
    index ← acc;
    let cp := nat_of_ascii (to_upper c) in
    if (cp <? 65)%nat || (90 <? cp)%nat then None
    else Some (index * 26 + cp - 65 + 1)%nat in
  index ← foldl step (Some 0%nat) (list_ascii_of_string x);
  Some (index - 1)%nat.

Definition range2cols (first last : string) : option (list nat) :=
  lo ← excel2num first;
  hi ← excel2num last;
  Some (seq lo (hi + 1 - lo)).

Definition usecols : option (list nat) := range2cols "B" "AO".

(** The table a sheet is loaded into: the index and the named columns, a
    missing value being [None]. *)
Record table := {
  index : list (option Q);
  columns : list (string * list (option Q))
}.

Definition column_names (t : table) : list string := fst <$> columns t.

(** The texts [read_excel] reads as a missing value (its default
    [na_values]). *)
Definition na_values : list string :=
  [""; "#N/A"; "#N/A N/A"; "#NA"; "-1.#IND"; "-1.#QNAN"; "-NaN"; "-nan";
   "1.#IND"; "1.#QNAN"; "<NA>"; "N/A"; "NA"; "NULL"; "NaN"; "None"; "n/a";
   "nan"; "null"].

(** A data cell: a blank cell and a text of [na_values] are missing values.
    A column holding any other text is no column of numbers; such sheets are
    outside the model ([None] for the whole load). *)
Definition data_cell (c : cell) : option (option Q) :=
  match c with
  | Blank => Some None
  | Number q => Some (Some q)
  | Text s => if bool_decide (s ∈ na_values) then Some None else None
  end.

(** A cell that reaches the index as a string. *)
Definition is_text (c : cell) : bool :=
  match c with
  | Text s => negb (bool_decide (s ∈ na_values))
  | Blank | Number _ => false
  end.

(** [tmp.index.str] is available on an empty index and on an index that
    holds strings; on an index of numbers or missing values alone it
    raises. *)
Definition str_accessor_ok (index_cells : list cell) : bool :=
  match index_cells with
  | [] => true
  | _ :: _ => existsb is_text index_cells
  end.

(** [str.replace('% of average wage', '', regex=False)]: every occurrence of
    the pattern is removed, scanning from the left. *)
Fixpoint strip_prefix (pat s : string) : option string :=
  match pat, s with
  | EmptyString, _ => Some s
  | String p pat', String c s' =>
      if Ascii.eqb p c then strip_prefix pat' s' else None
  | String _ _, EmptyString => None
  end.

Fixpoint remove_all_fuel (fuel : nat) (pat s : string) : string :=
  match fuel with
  | O => s
  | S fuel' =>
      match strip_prefix pat s with
      | Some rest => remove_all_fuel fuel' pat rest
      | None =>
          match s with
          | EmptyString => EmptyString
          | String c s' => String c (remove_all_fuel fuel' pat s')
          end
      end
  end.

Definition remove_all (pat s : string) : string :=
  remove_all_fuel (String.length s) pat s.

Definition index_suffix : string := "% of average wage".

Section Loader.

(** Python's [float] on a string; [None] when it raises.  A text that
    [float] turns into NaN or into an infinity (such as "nan" or "inf") has
    no value here; labels of this kind are outside the model. *)
Variable float : string -> option Q.

(** One label of the index after the clean-up: a text label is stripped and
    converted; a blank cell, a text of [na_values] and a number in an index
    that holds strings become NaN. *)
Definition index_label (c : cell) : option (option Q) :=
  match c with
  | Text s =>
      if bool_decide (s ∈ na_values) then Some None
      else Some <$> float (remove_all index_suffix s)
  | Blank | Number _ => Some None
  end.

Definition data_column (c : sheet_column) : option (string * list (option Q)) :=
  vals ← mapM data_cell (cells c);
  Some (header c, vals).

(** [pd.read_excel(..., header=8, usecols='B:AO', index_col=0)] followed by
    the clean-up of the index.  The columns at the positions of [usecols] are
    selected, and the first of them becomes the index.  [None] stands for a
    run that stops with an error: a sheet that ends before column AO (a
    position of [usecols] out of bounds), an index on which [.str] raises, a
    label [float] rejects.  [None] also stands for the sheets outside the
    model: those with a repeated header, whose columns the library would
    rename, and those with other text than [na_values] in a data column. *)
Definition read_excel (ws : worksheet) : option table :=
  positions ← usecols;
  selected ← mapM (fun i => ws !! i) positions;
  if negb (bool_decide (NoDup (header <$> ws))) then None
  else
    match selected with
    | [] => None
    | index_column :: data =>
        if negb (str_accessor_ok (cells index_column)) then None
        else
          idx ← mapM index_label (cells index_column);
          cols ← mapM data_column data;
          Some {| index := idx; columns := cols |}
    end.

End Loader.

(** *** Gap filling *)

(** The nearest present value before row [i] of a column, with its row. *)
Fixpoint last_valid_from (pos : nat) (col : list (option Q))
  (acc : option (nat * Q)) : option (nat * Q) :=
  match col with
  | [] => acc
  | Some v :: col' => last_valid_from (S pos) col' (Some (pos, v))
  | None :: col' => last_valid_from (S pos) col' acc
  end.

Definition prev_valid (col : list (option Q)) (i : nat) : option (nat * Q) :=
  last_valid_from 0 (take i col) None.

(** The nearest present value after row [i], with its row. *)
Fixpoint first_valid_from (pos : nat) (col : list (option Q))
  : option (nat * Q) :=
  match col with
  | [] => None
  | Some v :: _ => Some (pos, v)
  | None :: col' => first_valid_from (S pos) col'
  end.

Definition next_valid (col : list (option Q)) (i : nat) : option (nat * Q) :=
  first_valid_from (S i) (drop (S i) col).

Definition row_number (i : nat) : Q := inject_Z (Z.of_nat i).

(** The value of row [i] after [interpolate(method='linear', axis=0)].  With
    [method='linear'] the rows count as equally spaced: the x coordinate of a
    row is its position, not its index label.  A gap between two present
    values is filled from the line through them; a gap after the last present
    value gets that value; a gap before the first present value stays.
    The code evaluates the expression for a gap in float64 and stores the
    rounded result; here it is evaluated exactly.  The statements about
    filled values are those that rounding leaves true: which rows are
    filled, that a filled value lies between its neighbours, and its exact
    value where the float arithmetic is exact. *)
Definition interpolate_at (col : list (option Q)) (i : nat) (v : option Q)
  : option Q :=
  match v with
  | Some y => Some y
  | None =>
      match prev_valid col i with
      | None => None
      | Some (j, a) =>
          match next_valid col i with
          | None => Some a
          | Some (k, b) =>
              Some ((b - a) / (row_number k - row_number j)
                    * (row_number i - row_number j) + a)%Q
          end
      end
  end.

Definition interpolate_column (col : list (option Q)) : list (option Q) :=
  imap (interpolate_at col) col.

Definition interpolate (t : table) : table :=
  {| index := index t;
     columns := (fun nc => (fst nc, interpolate_column (snd nc)))
                <$> columns t |}.

(** [dfs], filled by the loop over [sheet_names] ([dfs_step] is one round);
    a missing sheet raises. *)
Definition load_sheet (float : string -> option Q)
  (workbook : gmap string worksheet) (sheet : string) : option table :=
  ws ← workbook !! sheet;
  tmp ← read_excel float ws;
  Some (interpolate tmp).

Definition dfs_step (float : string -> option Q)
  (workbook : gmap string worksheet) (acc : option (gmap string table))
  (sheet : string) : option (gmap string table) :=
  d ← acc;
  t ← load_sheet float workbook sheet;
  Some (<[sheet := t]> d).

Definition dfs (float : string -> option Q) (workbook : gmap string worksheet)
  : option (gmap string table) :=
  foldl (dfs_step float workbook) (Some ∅) sheet_names.

(** *** The figure *)

Definition colours : list string :=
  ["black"; "blue"; "blueviolet"; "brown"; "cadetblue"; "chocolate"; "coral";
   "crimson"; "cyan"; "darkblue";
   "darkcyan"; "darkgoldenrod"; "darkgreen"; "darkmagenta"; "darkolivegreen";
   "darkorange"; "darkorchid"; "darkred"; "darksalmon"; "darkslateblue";
   "darkslategray"; "darkturquoise"; "darkviolet"; "deeppink"; "deepskyblue";
   "dodgerblue"; "firebrick"; "forestgreen"; "fuchsia"; "green";
   "hotpink"; "indianred"; "indigo"; "maroon"; "mediumblue"; "mediumorchid";
   "mediumseagreen"; "mediumslateblue"; "orangered"; "purple"].

Definition red_country : string := "United Kingdom".

Definition highlight : list string :=
  ["United Kingdom"; "United States"; "France"; "Germany"; "Italy"; "Spain";
   "Canada"; "Sweden"; "Belgium"; "Netherlands"; "Poland"; "Türkiye"].

(** [sheet_names[0]] *)
Definition default_sheet : option string := sheet_names !! 0%nat.

(** [True if country in highlight else 'legendonly'] *)
Definition highlight_visibility (country : string) : visibility :=
  if bool_decide (country ∈ highlight) then VisTrue else VisLegendonly.

Record trace := {
  tr_x : list (option Q);
  tr_y : list (option Q);
  tr_name : string;
  tr_legendgroup : string;
  tr_visible : visibility;
  tr_line_color : string;
  tr_text : list string;
  tr_textfont_color : string
}.

(** ['red' if country == red_country else colours[idx]]; the index
    expression is evaluated only in the second branch and raises when out of
    range. *)
Definition trace_colour (idx : nat) (country : string) : option string :=
  if bool_decide (country = red_country) then Some "red"
  else colours !! idx.

(** The body of the inner loop of the figure construction. *)
Definition make_trace (default : string) (sheet : string) (df_sheet : table)
  (idx : nat) (col : string * list (option Q)) : option trace :=
  let country := fst col in
  let vis :=
    if bool_decide (sheet = default) then highlight_visibility country
    else VisFalse in
  let txt := replicate (length (index df_sheet) - 1) "" ++ [country] in
  line_colour ← trace_colour idx country;
  font_colour ← trace_colour idx country;
  Some {| tr_x := index df_sheet; tr_y := snd col;
          tr_name := country; tr_legendgroup := country;
          tr_visible := vis; tr_line_color := line_colour;
          tr_text := txt; tr_textfont_color := font_colour |}.

Definition sheet_traces (default : string) (d : gmap string table)
  (sheet : string) : option (list trace) :=
  df_sheet ← d !! sheet;
  mapM (fun ic => make_trace default sheet df_sheet (fst ic) (snd ic))
       (imap pair (columns df_sheet)).

(** The traces of [fig] in the order they are added. *)
Definition fig_traces (d : gmap string table) : option (list trace) :=
  default ← default_sheet;
  per_sheet ← mapM (sheet_traces default d) sheet_names;
  Some (concat per_sheet).

(** *** The scenario dropdown *)

Record button := {
  label : string;
  method : string;
  visible_arg : list visibility
}.

(** The entries one sheet [s] contributes to the mask of the button of
    [sheet]. *)
Definition mask_block (d : gmap string table) (sheet s : string)
  : option (list visibility) :=
  t ← d !! s;
  Some ((fun country =>
           if bool_decide (s = sheet) then highlight_visibility country
           else VisFalse) <$> column_names t).

Definition build_mask (d : gmap string table) (sheet : string)
  : option (list visibility) :=
  blocks ← mapM (mask_block d sheet) sheet_names;
  Some (concat blocks).

Definition make_button (d : gmap string table) (sheet : string)
  : option button :=
  mask ← build_mask d sheet;
  Some {| label := button_label sheet; method := "update";
          visible_arg := mask |}.

Definition buttons (d : gmap string table) : option (list button) :=
  mapM (make_button d) sheet_names.

(** *** Vocabulary for the statements *)

(** The tables are loaded: every sheet of [sheet_names] has its table. *)
Definition loaded (d : gmap string table) : Prop :=
  forall s, s ∈ sheet_names -> is_Some (d !! s).

(** The number of series of a sheet, and of all sheets together. *)
Definition series_count (d : gmap string table) (s : string) : nat :=
  from_option (fun t => length (column_names t)) 0%nat (d !! s).

Definition total_series (d : gmap string table) : nat :=
  sum_list (series_count d <$> sheet_names).

(** The (scenario, country) pair each trace position is bound to: scenarios
    in the order of [sheet_names], countries in column order. *)
Definition sheet_keys (d : gmap string table) (s : string)
  : list (string * string) :=
  from_option (fun t => pair s <$> column_names t) [] (d !! s).

Definition trace_keys (d : gmap string table) : list (string * string) :=
  sheet_names ≫= sheet_keys d.

(** The entries a scenario's block of a mask must hold: one per series, for
    the selected scenario [True] for a highlighted country and
    ['legendonly'] for any other, for another scenario [False]. *)
Definition block_for (selected : bool) (t : table) (blk : list visibility)
  : Prop :=
  length blk = length (column_names t) /\
  forall i country,
    column_names t !! i = Some country ->
    blk !! i = Some (if selected
                     then if bool_decide (country ∈ highlight)
                          then VisTrue else VisLegendonly
                     else VisFalse).

(** A mask made of one such block per scenario, in the order of
    [sheet_names]. *)
Definition mask_for (d : gmap string table) (sheet : string)
  (mask : list visibility) : Prop :=
  exists blocks,
    mask = concat blocks /\
    Forall2 (fun s blk =>
               exists t, d !! s = Some t /\
                         block_for (bool_decide (s = sheet)) t blk)
            sheet_names blocks.

(** [float] on a non-empty string of decimal digits; other strings are left
    unconverted.  Used for the example workbook only. *)
Fixpoint digits_value (acc : nat) (s : string) : option nat :=
  match s with
  | EmptyString => Some acc
  | String c s' =>
      let n := nat_of_ascii c in
      if (48 <=? n)%nat && (n <=? 57)%nat
      then digits_value (acc * 10 + (n - 48)) s'
      else None
  end.

Definition decimal_float (s : string) : option Q :=
  match s with
  | EmptyString => None
  | _ => (fun n => inject_Z (Z.of_nat n)) <$> digits_value 0 s
  end.

(** The countries of the example sheets besides France, Japan and the
    United Kingdom. *)
Definition other_countries : list string :=
  ["Australia"; "Austria"; "Belgium"; "Canada"; "Chile"; "Colombia";
   "Costa Rica"; "Czechia"; "Denmark"; "Estonia"; "Finland"; "Germany";
   "Greece"; "Hungary"; "Iceland"; "Ireland"; "Israel"; "Italy"; "Korea";
   "Latvia"; "Lithuania"; "Luxembourg"; "Mexico"; "Netherlands";
   "New Zealand"; "Norway"; "Poland"; "Portugal"; "Slovak Republic";
   "Slovenia"; "Spain"; "Sweden"; "Switzerland"; "Türkiye"; "United States";
   "OECD - Average"].

Definition other_columns : list sheet_column :=
  (fun country =>
     {| header := country; cells := [Number 20; Number 30; Number 35] |})
  <$> other_countries.

(** An example worksheet with the columns A to AO: income levels 50, 100 and
    200, a gap in the middle of France's column, at the start of Japan's and
    at the end of the United Kingdom's. *)
Definition example_sheet : worksheet :=
  [ {| header := "note"; cells := [Blank; Blank; Blank] |};
    {| header := "Income";
       cells := [Text "50% of average wage"; Text "100% of average wage";
                 Text "200% of average wage"] |};
    {| header := "France"; cells := [Number 10; Blank; Number 40] |};
    {| header := "Japan"; cells := [Blank; Number 20; Number 30] |};
    {| header := "United Kingdom"; cells := [Number 25; Number 30; Blank] |} ]
  ++ other_columns.

(** The same levels without gaps. *)
Definition complete_sheet : worksheet :=
  [ {| header := "note"; cells := [Blank; Blank; Blank] |};
    {| header := "Income";
       cells := [Text "50% of average wage"; Text "100% of average wage";
                 Text "200% of average wage"] |};
    {| header := "France"; cells := [Number 10; Number 20; Number 40] |};
    {| header := "Japan"; cells := [Number 15; Number 20; Number 30] |};
    {| header := "United Kingdom";
       cells := [Number 25; Number 30; Number 32] |} ]
  ++ other_columns.

Definition example_workbook : gmap string worksheet :=
  list_to_map [("single_no_children", example_sheet);
               ("single_two_children", complete_sheet);
               ("married_2_children", example_sheet);
               ("married_no_children", complete_sheet)].

Definition example_dfs : gmap string table :=
  default ∅ (dfs decimal_float example_workbook).



Definition none_before (col : list (option Q)) (i : nat) : Prop :=
  forall j, (j < i)%nat -> col !! j = Some None.




(** A table without missing values. *)
Definition complete (t : table) : bool :=
  forallb (fun nc => forallb (fun v : option Q => bool_decide (is_Some v))
                             (snd nc))
          (columns t).


Definition complete_tmp : table :=
  default {| index := []; columns := [] |}
          (read_excel decimal_float complete_sheet).

(** The mask entry of the button of [sheet] at a position bound to the
    series [key]. *)
Definition mask_entry_for (sheet : string) (key : string * string)
  : visibility :=
  if bool_decide (fst key = sheet)
  then if bool_decide (snd key ∈ highlight) then VisTrue else VisLegendonly
  else VisFalse.

(** *** Axis limits *)

Definition X_SPACING : Q := 1 # 10.

(** [a < b] on floats: false as soon as one side is NaN. *)
Definition float_lt (a b : option Q) : bool :=
  match a, b with
  | Some x, Some y => negb (Qle_bool y x)
  | _, _ => false
  end.

(** [d.index.min()] and [d.index.max()]: the least and the greatest label
    that is not NaN, NaN when there is none. *)
Definition index_min (t : table) : option Q :=
  foldr (fun v acc =>
           match v, acc with
           | Some x, Some y => Some (if Qle_bool x y then x else y)
           | Some x, None => Some x
           | None, _ => acc
           end) None (index t).

Definition index_max (t : table) : option Q :=
  foldr (fun v acc =>
           match v, acc with
           | Some x, Some y => Some (if Qle_bool y x then x else y)
           | Some x, None => Some x
           | None, _ => acc
           end) None (index t).

(** The built-in [min] and [max] over a sequence of floats: the first item
    is kept until a later one compares less (greater); an empty sequence
    raises. *)
Definition py_min (l : list (option Q)) : option (option Q) :=
  match l with
  | [] => None
  | x :: l' => Some (foldl (fun best y => if float_lt y best then y else best)
                           x l')
  end.

Definition py_max (l : list (option Q)) : option (option Q) :=
  match l with
  | [] => None
  | x :: l' => Some (foldl (fun best y => if float_lt best y then y else best)
                           x l')
  end.

(** [dfs.values()]: the tables in the order their sheets were loaded. *)
Definition dfs_values (d : gmap string table) : option (list table) :=
  mapM (fun s => d !! s) sheet_names.

Definition min_x (d : gmap string table) : option (option Q) :=
  tables ← dfs_values d;
  py_min (index_min <$> tables).

Definition max_x (d : gmap string table) : option (option Q) :=
  tables ← dfs_values d;
  py_max (index_max <$> tables).

(** [max_x * (1 + X_SPACING)].  The code rounds the sum and the product to
    float64 (200 gives 220.00000000000003); here they are exact, and the one
    fact stated about the result, that it is not below a non-negative
    [max_x], holds of the rounded product as well. *)
Definition extended_max_x (d : gmap string table) : option (option Q) :=
  max_x d ≫= fun m : option Q =>
  Some ((fun x => x * (1 + X_SPACING))%Q <$> m).

(** *** More vocabulary for the statements *)

(** The text has no percent sign. *)
Definition no_percent (s : string) : bool :=
  forallb (fun c => negb (Ascii.eqb c "%")) (list_ascii_of_string s).

(** A column has a gap after a present value. *)
Definition gap_after_value (col : list (option Q)) : Prop :=
  exists i j v, (i < j)%nat /\ col !! i = Some (Some v) /\ col !! j = Some None.

(** Every sheet of [sheet_names] has a table whose index holds at least one
    number. *)
Definition all_indexed (d : gmap string table) : bool :=
  forallb (fun s =>
             from_option
               (fun t => existsb (fun v : option Q => bool_decide (is_Some v))
                                 (index t))
               false (d !! s))
          sheet_names.

(** The example tables with the first sheet replaced by one whose only index
    label is not a number. *)
Definition blank_index_dfs : gmap string table :=
  <["single_no_children" :=
      {| index := [None]; columns := [("France", [Some 10%Q])] |}]>
    example_dfs.


End AllIncomes.


(** * Properties *)

(** ** Script 1: sorting *)

Module ByTaxpayerTypeFacts.
Import ByTaxpayerType.

Lemma insert_desc_perm c r l : Permutation (insert_desc c r l) (r :: l).
Proof.
  induction l as [|r' l IH]; simpl; [done|].
  destruct (Qle_bool (measure c r') (measure c r)); [done|].
  rewrite IH. apply perm_swap.
Qed.

Lemma sort_values_perm c df : Permutation (sort_values c df) df.
Proof.
  induction df as [|r df IH]; simpl; [done|].
  by rewrite insert_desc_perm, IH.
Qed.

Lemma sort_values_length c df : length (sort_values c df) = length df.
Proof. apply Permutation_length, sort_values_perm. Qed.

Lemma insert_desc_sorted c r l :
  StronglySorted (desc c) l -> StronglySorted (desc c) (insert_desc c r l).
Proof.
  induction 1 as [|r' l Hl IH Hall]; simpl.
  - repeat constructor.
  - destruct (Qle_bool (measure c r') (measure c r)) eqn:E.
    + apply Qle_bool_iff in E.
      constructor; [by constructor|].
      constructor; [exact E|].
      eapply Forall_impl; [exact Hall|].
      intros r'' H. unfold desc in *. eapply Qle_trans; [exact H|exact E].
    + constructor; [exact IH|].
      rewrite insert_desc_perm. constructor; [|exact Hall].
      unfold desc. apply Qlt_le_weak, Qnot_le_lt.
      intros H. apply Qle_bool_iff in H. congruence.
  Qed.

Lemma sort_values_sorted c df : StronglySorted (desc c) (sort_values c df).
Proof.
  induction df as [|r df IH]; simpl; [constructor|].
  by apply insert_desc_sorted.
Qed.

Lemma StronglySorted_fmap {A B} (R : B -> B -> Prop) (f : A -> B) l :
  StronglySorted (fun a b => R (f a) (f b)) l -> StronglySorted R (f <$> l).
Proof.
  induction 1 as [|a l Hl IH Hall]; simpl; constructor; [done|].
  by apply Forall_fmap.
Qed.

Lemma sort_values_non_increasing c df :
  non_increasing (measure c <$> sort_values c df).
Proof. apply StronglySorted_fmap, sort_values_sorted. Qed.

(** [sorted_data] holds the view of every sort column under its name. *)
Lemma sorted_data_lookup df c :
  sorted_data df !! column_name c = Some (build_view c df).
Proof. by destruct c. Qed.

End ByTaxpayerTypeFacts.

Module ByTaxpayerTypeViews.
Import ByTaxpayerType ByTaxpayerTypeFacts.

(** C4: for every sort column, the view stored under its name lists the rows
    of [df] in an order in which that column's values never increase: the
    tick labels, the tick values, the connectors and the column's point trace
    all follow one row order [rows], a permutation of [df], and the column's
    values along [rows] are non-increasing. *)
Theorem sorted_view_non_increasing (df : list row) (c : column) :
  exists v rows,
    sorted_data df !! column_name c = Some v /\
    rows ≡ₚ df /\
    country_order v = Country <$> rows /\
    tick_labels v = (fun r => tick_label (Country r)) <$> rows /\
    take (num_countries df) (trace_x_values v) = connector_x <$> rows /\
    trace_x_values v !! (num_countries df + column_position c)%nat
      = Some (measure c <$> rows) /\
    non_increasing (measure c <$> rows).
Proof.
  exists (build_view c df), (sort_values c df).
  split; [apply sorted_data_lookup|].
  split; [apply sort_values_perm|].
  split; [done|]. split; [done|].
  assert (Hlen : length (connector_x <$> sort_values c df) = num_countries df).
  { by rewrite length_fmap, sort_values_length. }
  split.
  { simpl. fold connector_x. by rewrite <- Hlen, take_app_length. }
  split; [|apply sort_values_non_increasing].
  simpl. fold connector_x. rewrite <- Hlen, lookup_app_r by lia.
  replace (_ + _ - _)%nat with (column_position c) by lia.
  by destruct c.
Qed.

(** C8: for the table holding exactly France (0.30, 0.35, 0.40) and Spain
    (0.28, 0.30, 0.45), in either order, the view for the third measure has
    row order Spain, France; Spain's tick label is the bare name; both
    connectors have the neutral colour and width, and the highlight colour
    and width occur nowhere. *)
Theorem france_spain_scenario :
  (exists v, sorted_data (dropna [france; spain]) !! "family_two_earners"
             = Some v /\ scenario_view v) /\
  (exists v, sorted_data (dropna [spain; france]) !! "family_two_earners"
             = Some v /\ scenario_view v).
Proof.
  split; eexists; (split; [reflexivity|]);
    (repeat split; try reflexivity);
    intros H; repeat (apply elem_of_cons in H as [H|H]; [discriminate H|]);
    by apply elem_of_nil in H.
Qed.

End ByTaxpayerTypeViews.

(** ** Script 1: the controls *)

Module ByTaxpayerTypeControls.
Import ByTaxpayerType ByTaxpayerTypeFacts.

Lemma value_at_lookup {A} (vals : list A) i :
  (i < length vals)%nat -> value_at vals i = vals !! i.
Proof. intros H. unfold value_at. by rewrite Nat.mod_small. Qed.

(** An entry over the traces [p, p + k): positions and trace indices agree. *)
Lemma restyle_entry_from_seq e k : forall p trs i,
  restyle_entry_from e p (seq p k) trs !! i
  = if bool_decide (p <= i < p + k)%nat
    then restyle_trace e i <$> trs !! i else trs !! i.
Proof.
  induction k as [|k IH]; intros p trs i; simpl.
  - rewrite bool_decide_eq_false_2 by lia. done.
  - rewrite IH. destruct (decide (i = p)) as [->|Hne].
    + rewrite bool_decide_eq_false_2 by lia.
      rewrite bool_decide_eq_true_2 by lia.
      apply list_lookup_alter_eq.
    + rewrite list_lookup_alter_ne by done.
      destruct (decide (p <= i < p + S k)%nat).
      * rewrite !bool_decide_eq_true_2 by lia. done.
      * rewrite !bool_decide_eq_false_2 by lia. done.
Qed.

Lemma restyle_entry_from_length e indices : forall p trs,
  length (restyle_entry_from e p indices trs) = length trs.
Proof.
  induction indices as [|i indices IH]; intros p trs; simpl; [done|].
  by rewrite IH, length_alter.
Qed.

(** Assigning [visible] over all traces installs the given list. *)
Lemma restyle_visible_all vals trs :
  length vals = length trs ->
  tr_visible <$> restyle [Set_visible vals] (seq 0 (length trs)) trs = vals.
Proof.
  intros Hlen. apply list_eq. intros i. simpl.
  rewrite list_lookup_fmap, restyle_entry_from_seq.
  destruct (decide (i < length trs)%nat) as [Hi|Hi].
  - rewrite bool_decide_eq_true_2 by lia.
    destruct (lookup_lt_is_Some_2 trs i Hi) as [tr Htr].
    destruct (lookup_lt_is_Some_2 vals i ltac:(lia)) as [v Hv].
    rewrite Htr. simpl. rewrite value_at_lookup by lia. by rewrite Hv.
  - rewrite bool_decide_eq_false_2 by lia.
    rewrite !lookup_ge_None_2 by lia. done.
Qed.

(** An entry for another attribute leaves [visible] alone. *)
Lemma restyle_trace_visible e pos tr :
  entry_key e ≠ "visible" ->
  tr_visible (restyle_trace e pos tr) = tr_visible tr.
Proof.
  intros He. by destruct e; simpl in *; try destruct (value_at _ _).
Qed.

Lemma fmap_alter_same {A B} (f : A -> B) (g : A -> A) i (l : list A) :
  (forall a, f (g a) = f a) -> f <$> alter g i l = f <$> l.
Proof.
  intros H. revert i.
  induction l as [|a l IH]; intros [|i]; simpl; try done.
  - by rewrite H.
  - f_equal. apply IH.
Qed.

Lemma restyle_entry_from_visible e indices : forall p trs,
  entry_key e ≠ "visible" ->
  tr_visible <$> restyle_entry_from e p indices trs = tr_visible <$> trs.
Proof.
  induction indices as [|i indices IH]; intros p trs He; simpl; [done|].
  rewrite IH by done. apply fmap_alter_same.
  intros tr. by apply restyle_trace_visible.
Qed.

Lemma restyle_visible_untouched upd indices : forall trs,
  Forall (fun e => entry_key e ≠ "visible") upd ->
  tr_visible <$> restyle upd indices trs = tr_visible <$> trs.
Proof.
  unfold restyle. induction upd as [|e upd IH]; intros trs H; simpl; [done|].
  inversion H; subst. rewrite IH by done.
  by apply restyle_entry_from_visible.
Qed.

Lemma relayout_traces es : forall ch,
  traces (foldl relayout_one ch es) = traces ch.
Proof.
  induction es as [|e es IH]; intros ch; simpl; [done|].
  rewrite IH. by destruct e.
Qed.

Lemma buttons_eq df :
  buttons df = Some ((fun c => make_button c (build_view c df))
                     <$> sort_columns_list).
Proof. reflexivity. Qed.

Lemma all_trace_indices_seq df :
  all_trace_indices df = seq 0 (num_countries df + 3).
Proof.
  unfold all_trace_indices, connector_trace_indices.
  rewrite seq_app. simpl. repeat f_equal; lia.
Qed.

End ByTaxpayerTypeControls.

Module ByTaxpayerTypeFigure.
Import ByTaxpayerType ByTaxpayerTypeFacts ByTaxpayerTypeControls.

Lemma connector_trace_row c df i r :
  sort_values c df !! i = Some r ->
  connector_trace (build_view c df) i = Some (connector_of_row r).
Proof.
  intros Hr. unfold connector_trace. simpl.
  assert (Hi : (i < length (sort_values c df))%nat) by by eapply lookup_lt_Some.
  rewrite !lookup_app_l by by rewrite length_fmap.
  rewrite !list_lookup_fmap, Hr. done.
Qed.

Lemma connector_traces_rows c df :
  mapM (connector_trace (build_view c df)) (seq 0 (num_countries df))
  = Some (connector_of_row <$> sort_values c df).
Proof.
  apply mapM_Some_2, Forall2_same_length_lookup_2.
  - unfold num_countries.
    by rewrite length_seq, length_fmap, sort_values_length.
  - intros i j t Hj Ht. apply lookup_seq in Hj as [-> _]. simpl.
    rewrite list_lookup_fmap in Ht.
    destruct (sort_values c df !! i) as [r|] eqn:Hr; [|done].
    injection Ht as <-. by apply connector_trace_row.
Qed.

Lemma point_trace_rows c df k name :
  (k < 3)%nat ->
  point_trace (build_view c df) (num_countries df + k) name
  = (fun f => points_of_rows (sort_values c df) f name)
    <$> [single_worker; family_single_earner; family_two_earners] !! k.
Proof.
  intros Hk. unfold point_trace, num_countries. simpl.
  rewrite <- (sort_values_length c df).
  rewrite !lookup_app_r by (rewrite length_fmap; lia).
  rewrite !length_fmap.
  replace (_ + k - _)%nat with k by lia.
  by destruct k as [|[|[|k]]]; [..|lia].
Qed.

(** The figure always builds, and its traces are the connectors of the rows
    sorted by the first measure followed by the three point traces. *)
Lemma fig_traces_eq df :
  fig_traces df = Some (traces_of_rows (sort_values Single_worker df)).
Proof.
  unfold fig_traces.
  change initial_sort_column with (column_name Single_worker).
  rewrite sorted_data_lookup. simpl.
  rewrite connector_traces_rows. simpl.
  rewrite <- (Nat.add_0_r (num_countries df)) at 1.
  rewrite !point_trace_rows by lia. done.
Qed.

Lemma traces_of_rows_length rows :
  length (traces_of_rows rows) = (length rows + 3)%nat.
Proof. unfold traces_of_rows. by rewrite length_app, length_fmap. Qed.

End ByTaxpayerTypeFigure.

Module ByTaxpayerTypeToggle.
Import ByTaxpayerType ByTaxpayerTypeFacts ByTaxpayerTypeControls.
Import ByTaxpayerTypeFigure.

(** C2, as stated, fails: in the chart of France and Spain with the
    connectors hidden, selecting the first sort option leaves the first
    connector hidden. *)
Lemma dropdown_does_not_restore_connectors :
  ~ dropdown_restores_connectors (dropna [france; spain]).
Proof.
  intros H.
  pose (b := make_button Single_worker
               (build_view Single_worker (dropna [france; spain]))).
  assert (Hch : exists ch,
             france_spain_chart
               [VisFalse; VisFalse; VisTrue; VisTrue; VisTrue] = Some ch)
    by (eexists; vm_compute; reflexivity).
  destruct Hch as [ch Hch].
  assert (Hlen : length (traces ch)
                 = (num_countries (dropna [france; spain]) + 3)%nat).
  { vm_compute in Hch. injection Hch as <-. reflexivity. }
  assert (Htr : tr_visible <$> traces (select_option b ch) !! 0%nat
                = Some VisFalse).
  { vm_compute in Hch. injection Hch as <-. vm_compute. reflexivity. }
  destruct (traces (select_option b ch) !! 0%nat) as [tr|] eqn:E;
    [|discriminate Htr].
  injection Htr as Htr.
  assert (Hvis : tr_visible tr = VisTrue).
  { eapply (H _ b ch 0%nat tr);
      [reflexivity | by left | exact Hlen | vm_compute; lia | exact E]. }
  congruence.
Qed.

(** C2, amended: the three options of the sort dropdown assign [x], [y],
    [line.color] and [line.width] and nothing else to the traces; selecting
    an option leaves the visibility of every trace as it was, so hidden
    connectors stay hidden across a change of view. *)
Theorem dropdown_leaves_visibility (df : list row) :
  exists bs,
    buttons df = Some bs /\
    length bs = 3%nat /\
    Forall (fun b =>
              entry_key <$> restyle_args b
              = ["x"; "y"; "line.color"; "line.width"] /\
              forall ch, visibilities (select_option b ch) = visibilities ch)
           bs.
Proof.
  eexists. split; [apply buttons_eq|]. split; [done|].
  apply Forall_fmap, Forall_forall. intros c _. split; [done|].
  intros ch. unfold visibilities, select_option.
  rewrite relayout_traces. cbn [traces].
  apply restyle_visible_untouched.
  by repeat constructor.
Qed.

(** C7, as stated, fails: in the chart of France and Spain whose first point
    trace is legend-only, a click on the toggle makes that trace visible. *)
Lemma toggle_shows_hidden_marker :
  ~ toggle_keeps_markers (dropna [france; spain]).
Proof.
  intros H.
  assert (Hch : exists ch,
             france_spain_chart
               [VisTrue; VisTrue; VisLegendonly; VisTrue; VisTrue] = Some ch)
    by (eexists; vm_compute; reflexivity).
  destruct Hch as [ch Hch].
  assert (Hlen : length (traces ch)
                 = (num_countries (dropna [france; spain]) + 3)%nat).
  { vm_compute in Hch. injection Hch as <-. reflexivity. }
  specialize (H ch With_args 2%nat Hlen ltac:(vm_compute; lia)).
  vm_compute in Hch. injection Hch as <-.
  vm_compute in H. discriminate H.
Qed.

(** C7, amended: a click on the toggle assigns a visibility to every trace:
    the connectors all become hidden ([args]) or all become visible
    ([args2]), and the three point traces become visible; the point traces
    keep their visibility when they were visible before the click. *)
Theorem toggle_sets_connectors_shows_markers
  (df : list row) (ch : chart) (k : toggle_click) :
  length (traces ch) = (num_countries df + 3)%nat ->
  visibilities (click_toggle (toggle_connectors_button df) k ch)
  = replicate (num_countries df) (toggled_to k)
    ++ [VisTrue; VisTrue; VisTrue]
  /\ (drop (num_countries df) (visibilities ch) = [VisTrue; VisTrue; VisTrue]
      -> drop (num_countries df)
           (visibilities (click_toggle (toggle_connectors_button df) k ch))
         = drop (num_countries df) (visibilities ch)).
Proof.
  intros Hlen.
  assert (Hvis :
    visibilities (click_toggle (toggle_connectors_button df) k ch)
    = replicate (num_countries df) (toggled_to k)
      ++ [VisTrue; VisTrue; VisTrue]).
  { unfold visibilities, click_toggle.
    destruct k; simpl; rewrite all_trace_indices_seq, <- Hlen;
      apply restyle_visible_all;
      rewrite length_app, length_replicate; simpl; lia. }
  split; [exact Hvis|].
  intros Hm. rewrite Hvis, Hm.
  by rewrite drop_app_length'
    by by rewrite length_replicate.
Qed.

(** The toggle on the initial chart of France and Spain. *)
Lemma toggle_sets_connectors_shows_markers_witness :
  let df := dropna [france; spain] in
  let ch := {| traces := traces_of_rows (sort_values Single_worker df);
               ticktext := []; tickvals := []; autorange := "reversed" |} in
  visibilities (click_toggle (toggle_connectors_button df) With_args ch)
  = [VisFalse; VisFalse; VisTrue; VisTrue; VisTrue].
Proof.
  intros df ch.
  exact (proj1 (toggle_sets_connectors_shows_markers df ch With_args
                  eq_refl)).
Defined.

End ByTaxpayerTypeToggle.


(** ** Script 2: the loader *)

Module AllIncomesLoader.
Import AllIncomes.

Lemma usecols_eq : usecols = Some (seq 1 40).
Proof. reflexivity. Qed.

(** What a successful [read_excel] has gone through. *)
Lemma read_excel_Some float ws t :
  read_excel float ws = Some t ->
  exists index_column data idx,
    mapM (fun i => ws !! i) (seq 1 40) = Some (index_column :: data) /\
    NoDup (header <$> ws) /\
    str_accessor_ok (cells index_column) = true /\
    mapM (index_label float) (cells index_column) = Some idx /\
    mapM data_column data = Some (columns t) /\
    index t = idx.
Proof.
  unfold read_excel. rewrite usecols_eq. intros H.
  apply bind_Some in H as (positions & [= <-] & H).
  apply bind_Some in H as (selected & Hsel & H).
  destruct (bool_decide (NoDup (header <$> ws))) eqn:Hnodup; [|done].
  apply bool_decide_eq_true in Hnodup. cbn [negb] in H.
  destruct selected as [|index_column data]; [done|].
  destruct (str_accessor_ok (cells index_column)) eqn:Hstr; [|done].
  cbn [negb] in H.
  apply bind_Some in H as (idx & Hidx & H).
  apply bind_Some in H as (cols & Hcols & H).
  injection H as <-. by exists index_column, data, idx.
Qed.

(** At most 39 data columns come out of [usecols='B:AO', index_col=0]. *)
Lemma read_excel_columns_bound float ws t :
  read_excel float ws = Some t -> (length (columns t) <= 39)%nat.
Proof.
  intros H.
  apply read_excel_Some in H as (ic & data & idx & Hsel & _ & _ & _ & Hc & _).
  apply length_mapM in Hsel, Hc. rewrite length_seq in Hsel.
  cbn [length] in Hsel. lia.
Qed.

Lemma interpolate_column_names t :
  column_names (interpolate t) = column_names t.
Proof.
  unfold column_names, interpolate. simpl.
  rewrite <- list_fmap_compose. done.
Qed.

Lemma column_names_length t : length (column_names t) = length (columns t).
Proof. apply length_fmap. Qed.

Lemma load_sheet_columns_bound float wb s t :
  load_sheet float wb s = Some t -> (length (columns t) <= 39)%nat.
Proof.
  unfold load_sheet. intros H.
  apply bind_Some in H as (ws & _ & H).
  apply bind_Some in H as (tmp & Htmp & H).
  injection H as <-. apply read_excel_columns_bound in Htmp.
  rewrite <- column_names_length, interpolate_column_names,
    column_names_length. done.
Qed.

Lemma dfs_step_Some float wb acc sheet d :
  dfs_step float wb acc sheet = Some d ->
  exists d0 t, acc = Some d0 /\ load_sheet float wb sheet = Some t /\
               d = <[sheet := t]> d0.
Proof.
  unfold dfs_step. intros H.
  apply bind_Some in H as (d0 & Hd0 & H).
  apply bind_Some in H as (t & Ht & H).
  injection H as <-. by exists d0, t.
Qed.

(** When the loader succeeds, [dfs] holds under each sheet name the table
    loaded from that sheet. *)
Lemma dfs_lookup float wb d s :
  dfs float wb = Some d -> s ∈ sheet_names ->
  exists t, load_sheet float wb s = Some t /\ d !! s = Some t.
Proof.
  intros H Hs.
  unfold dfs, sheet_names in H. cbn [foldl] in H.
  apply dfs_step_Some in H as (d3 & t3 & H & H3 & ->).
  apply dfs_step_Some in H as (d2 & t2 & H & H2 & ->).
  apply dfs_step_Some in H as (d1 & t1 & H & H1 & ->).
  apply dfs_step_Some in H as (d0 & t0 & H & H0 & ->).
  unfold sheet_names in Hs.
  repeat (apply elem_of_cons in Hs as [->|Hs]);
    [..|by apply elem_of_nil in Hs]; eexists; (split; [eassumption|]).
  - rewrite !lookup_insert_ne by done. apply lookup_insert_eq.
  - rewrite !lookup_insert_ne by done. apply lookup_insert_eq.
  - rewrite !lookup_insert_ne by done. apply lookup_insert_eq.
  - apply lookup_insert_eq.
Qed.

Lemma dfs_loaded float wb d : dfs float wb = Some d -> loaded d.
Proof.
  intros Hd s Hs. destruct (dfs_lookup float wb d s Hd Hs) as (t & _ & ->).
  by eexists.
Qed.

Lemma dfs_columns_bound float wb d s t :
  dfs float wb = Some d -> s ∈ sheet_names -> d !! s = Some t ->
  (length (columns t) <= 39)%nat.
Proof.
  intros Hd Hs Ht. destruct (dfs_lookup float wb d s Hd Hs) as (t' & Hl & Ht').
  assert (t' = t) as -> by congruence.
  by eapply load_sheet_columns_bound.
Qed.

End AllIncomesLoader.

(** ** Script 2: the figure and the dropdown *)

Module AllIncomesFigure.
Import AllIncomes AllIncomesLoader.

Lemma colours_length : length colours = 40%nat.
Proof. reflexivity. Qed.

Lemma trace_colour_Some idx country :
  (idx < 40)%nat -> is_Some (trace_colour idx country).
Proof.
  intros Hidx. unfold trace_colour. case_bool_decide; [by eexists|].
  apply lookup_lt_is_Some_2. by rewrite colours_length.
Qed.

Lemma make_trace_Some default sheet t idx col :
  (idx < 40)%nat -> is_Some (make_trace default sheet t idx col).
Proof.
  intros Hidx. unfold make_trace.
  destruct (trace_colour_Some idx (fst col) Hidx) as [c ->].
  by eexists.
Qed.

Lemma make_trace_inv default sheet t idx col tr :
  make_trace default sheet t idx col = Some tr ->
  tr_visible tr = (if bool_decide (sheet = default)
                   then highlight_visibility (fst col) else VisFalse) /\
  tr_name tr = fst col.
Proof.
  unfold make_trace. destruct (trace_colour idx (fst col)); [|done].
  cbn [mbind option_bind]. by intros [= <-].
Qed.

(** [mapM] over a list on which the function succeeds with a result
    satisfying [P]. *)
Lemma mapM_Forall2 {A B} (f : A -> option B) (P : A -> B -> Prop) l :
  (forall x, x ∈ l -> exists y, f x = Some y /\ P x y) ->
  exists k, mapM f l = Some k /\ Forall2 P l k.
Proof.
  induction l as [|x l IH]; intros H.
  - exists []. by split; [|constructor].
  - destruct (H x) as (y & Hy & HP); [by left|].
    destruct IH as (k & Hk & HF); [intros x' Hx'; apply H; by right|].
    exists (y :: k). split; [|by constructor].
    cbn. rewrite Hy. cbn. by rewrite Hk.
Qed.

Lemma Forall2_fmap_eq {A B C} (f : A -> C) (g : B -> C) l k :
  Forall2 (fun x y => f x = g y) l k -> f <$> l = g <$> k.
Proof. induction 1; cbn; [done|]. by f_equal. Qed.

Lemma Forall2_concat_bind {A B C D} (F : B -> D) (H : C -> D)
  (K : A -> list C) l k :
  Forall2 (fun s trs => F <$> trs = H <$> K s) l k ->
  F <$> concat k = H <$> (l ≫= K).
Proof.
  induction 1 as [|s trs l k Hs _ IH]; [done|].
  rewrite bind_cons. cbn [concat]. by rewrite !fmap_app, Hs, IH.
Qed.

Lemma length_bind_sum {A B} (K : A -> list B) l :
  length (l ≫= K) = sum_list ((fun s => length (K s)) <$> l).
Proof.
  induction l as [|s l IH]; [done|].
  rewrite bind_cons, length_app, IH. done.
Qed.

Lemma imap_pair_snd {A B} (f : A -> B) (l : list A) :
  (fun ic : nat * A => f (snd ic)) <$> imap pair l = f <$> l.
Proof.
  apply list_eq. intros i.
  rewrite !list_lookup_fmap, list_lookup_imap. by destruct (l !! i).
Qed.

(** The traces of one sheet: one per column, in column order. *)
Lemma sheet_traces_Some default d sheet t :
  d !! sheet = Some t -> (length (columns t) <= 40)%nat ->
  exists trs,
    sheet_traces default d sheet = Some trs /\
    tr_visible <$> trs
    = (fun country => if bool_decide (sheet = default)
                      then highlight_visibility country else VisFalse)
      <$> column_names t /\
    tr_name <$> trs = column_names t.
Proof.
  intros Ht Hlen. unfold sheet_traces. rewrite Ht. cbn [mbind option_bind].
  destruct (mapM_Forall2
              (fun ic => make_trace default sheet t (fst ic) (snd ic))
              (fun ic tr =>
                 make_trace default sheet t (fst ic) (snd ic) = Some tr)
              (imap pair (columns t))) as (trs & -> & HF).
  { intros [idx col] Hin. apply elem_of_lookup_imap in Hin as (i & c & E & Hi).
    injection E as -> ->. apply lookup_lt_Some in Hi.
    destruct (make_trace_Some default sheet t i c) as [tr Htr]; [lia|].
    by exists tr. }
  exists trs. split; [done|]. unfold column_names.
  rewrite <- list_fmap_compose. split.
  - rewrite <- (Forall2_fmap_eq
                  (fun ic : nat * (string * list (option Q)) =>
                     if bool_decide (sheet = default)
                     then highlight_visibility (fst (snd ic)) else VisFalse)
                  tr_visible (imap pair (columns t)) trs).
    + by rewrite (imap_pair_snd
                    (fun col : string * list (option Q) =>
                       if bool_decide (sheet = default)
                       then highlight_visibility (fst col) else VisFalse)).
    + eapply Forall2_impl; [exact HF|].
      intros ic tr Htr. apply make_trace_inv in Htr as [-> _]. done.
  - rewrite <- (Forall2_fmap_eq
                  (fun ic : nat * (string * list (option Q)) => fst (snd ic))
                  tr_name (imap pair (columns t)) trs).
    + by rewrite (imap_pair_snd fst).
    + eapply Forall2_impl; [exact HF|].
      intros ic tr Htr. apply make_trace_inv in Htr as [_ ->]. done.
Qed.

Lemma trace_keys_bind d : trace_keys d = sheet_names ≫= sheet_keys d.
Proof. reflexivity. Qed.

Lemma trace_keys_length d : length (trace_keys d) = total_series d.
Proof.
  rewrite trace_keys_bind, length_bind_sum. unfold total_series.
  f_equal. apply list_fmap_ext. intros _ s _.
  unfold sheet_keys, series_count. destruct (d !! s); [|done].
  cbn. by rewrite length_fmap.
Qed.

Lemma default_sheet_eq : default_sheet = Some "single_no_children".
Proof. reflexivity. Qed.

(** The figure builds when every sheet has at most 40 series; its traces
    follow [trace_keys], and only the default scenario's are shown. *)
Lemma fig_traces_Some d :
  loaded d ->
  (forall s t, s ∈ sheet_names -> d !! s = Some t ->
               (length (columns t) <= 40)%nat) ->
  exists trs,
    fig_traces d = Some trs /\
    tr_visible <$> trs
    = mask_entry_for "single_no_children" <$> trace_keys d /\
    tr_name <$> trs = snd <$> trace_keys d.
Proof.
  intros Hl Hb.
  destruct (mapM_Forall2 (sheet_traces "single_no_children" d)
              (fun s trs =>
                 tr_visible <$> trs
                 = mask_entry_for "single_no_children" <$> sheet_keys d s /\
                 tr_name <$> trs = snd <$> sheet_keys d s)
              sheet_names) as (per & Hper & HF).
  { intros s Hs. destruct (Hl s Hs) as [t Ht].
    destruct (sheet_traces_Some "single_no_children" d s t Ht)
      as (trs & E & Hv & Hn); [by eapply Hb|].
    exists trs. split; [done|]. unfold sheet_keys. rewrite Ht. cbn.
    rewrite <- !list_fmap_compose. split; [|by rewrite Hn, list_fmap_id].
    rewrite Hv. apply list_fmap_ext. intros _ country _.
    unfold mask_entry_for, highlight_visibility. cbn.
    by repeat case_bool_decide. }
  exists (concat per). split.
  - unfold fig_traces. rewrite default_sheet_eq.
    apply bind_Some. exists "single_no_children". split; [done|].
    apply bind_Some. by exists per.
  - rewrite trace_keys_bind. split; apply Forall2_concat_bind;
      (eapply Forall2_impl; [exact HF|]); by intros s trs [??].
Qed.

(** The block a sheet contributes to a mask. *)
Lemma mask_block_Some d sheet s t :
  d !! s = Some t ->
  mask_block d sheet s
  = Some (mask_entry_for sheet <$> sheet_keys d s).
Proof.
  intros Ht. unfold mask_block, sheet_keys. rewrite Ht. cbn.
  f_equal. rewrite <- list_fmap_compose. apply list_fmap_ext.
  intros _ country _. unfold mask_entry_for, highlight_visibility. cbn.
  by repeat case_bool_decide.
Qed.

Lemma block_for_sheet_keys d sheet s t :
  d !! s = Some t ->
  block_for (bool_decide (s = sheet)) t
            (mask_entry_for sheet <$> sheet_keys d s).
Proof.
  intros Ht. unfold sheet_keys. rewrite Ht. cbn. split.
  - by rewrite !length_fmap.
  - intros i country Hi. rewrite <- list_fmap_compose, list_lookup_fmap, Hi.
    done.
Qed.

(** The mask of the button of [sheet]. *)
Lemma build_mask_Some d sheet :
  loaded d ->
  build_mask d sheet = Some (mask_entry_for sheet <$> trace_keys d) /\
  mask_for d sheet (mask_entry_for sheet <$> trace_keys d).
Proof.
  intros Hl.
  destruct (mapM_Forall2 (mask_block d sheet)
              (fun s blk =>
                 blk = mask_entry_for sheet <$> sheet_keys d s /\
                 exists t, d !! s = Some t /\
                           block_for (bool_decide (s = sheet)) t blk)
              sheet_names) as (blocks & Hblocks & HF).
  { intros s Hs. destruct (Hl s Hs) as [t Ht].
    eexists. split; [by eapply mask_block_Some|]. split; [done|].
    exists t. split; [done|]. by apply block_for_sheet_keys. }
  assert (E : concat blocks = mask_entry_for sheet <$> trace_keys d).
  { rewrite trace_keys_bind, <- (list_fmap_id (concat blocks)).
    apply Forall2_concat_bind. eapply Forall2_impl; [exact HF|].
    intros s blk [-> _]. by rewrite list_fmap_id. }
  split.
  - unfold build_mask. apply bind_Some. exists blocks. by rewrite E.
  - exists blocks. split; [done|].
    eapply Forall2_impl; [exact HF|]. by intros s blk [_ ?].
Qed.

(** The dropdown has one button per scenario, each with its mask. *)
Lemma buttons_Some d :
  loaded d ->
  exists bs,
    buttons d = Some bs /\
    Forall2 (fun sheet b =>
               label b = button_label sheet /\
               visible_arg b = mask_entry_for sheet <$> trace_keys d)
            sheet_names bs.
Proof.
  intros Hl. apply mapM_Forall2. intros sheet _.
  destruct (build_mask_Some d sheet Hl) as [Hm _].
  eexists. unfold make_button. rewrite Hm. by cbn.
Qed.

End AllIncomesFigure.

Module AllIncomesDropdown.
Import AllIncomes AllIncomesLoader AllIncomesFigure.

Lemma dfs_figure float wb d :
  dfs float wb = Some d ->
  exists trs,
    fig_traces d = Some trs /\
    tr_visible <$> trs
    = mask_entry_for "single_no_children" <$> trace_keys d /\
    tr_name <$> trs = snd <$> trace_keys d.
Proof.
  intros Hd. apply fig_traces_Some; [by eapply dfs_loaded|].
  intros s t Hs Ht. pose proof (dfs_columns_bound _ _ _ _ _ Hd Hs Ht). lia.
Qed.

(** C1: when the tables are loaded, the dropdown has one button per
    scenario; the mask of each button has one entry per trace of the figure,
    as many as there are series in all four scenarios together; and it is
    made of one block per scenario, in which the scenario the button stands
    for (in particular the default scenario, for its button) has [True] for
    the highlighted countries and ['legendonly'] for the others, and every
    other scenario has [False] throughout. *)
Theorem scenario_masks float wb d :
  dfs float wb = Some d ->
  exists trs bs,
    fig_traces d = Some trs /\ buttons d = Some bs /\
    length bs = length sheet_names /\
    forall j sheet b,
      sheet_names !! j = Some sheet -> bs !! j = Some b ->
      length (visible_arg b) = length trs /\
      length (visible_arg b) = total_series d /\
      mask_for d sheet (visible_arg b).
Proof.
  intros Hd. pose proof (dfs_loaded _ _ _ Hd) as Hl.
  destruct (dfs_figure _ _ _ Hd) as (trs & Htrs & Hvis & _).
  destruct (buttons_Some d Hl) as (bs & Hbs & HF).
  exists trs, bs. split; [done|]. split; [done|].
  split; [symmetry; by eapply Forall2_length|].
  intros j sheet b Hj Hb.
  destruct (Forall2_lookup_lr _ _ _ _ _ _ HF Hj Hb) as [_ ->].
  assert (Hlen : length (mask_entry_for sheet <$> trace_keys d)
                 = length (trace_keys d)) by apply length_fmap.
  split; [|split].
  - rewrite Hlen. apply (f_equal length) in Hvis.
    rewrite !length_fmap in Hvis. done.
  - rewrite Hlen. apply trace_keys_length.
  - by apply build_mask_Some.
Qed.

(** The masks of the example workbook. *)
Lemma scenario_masks_witness :
  exists trs bs,
    fig_traces example_dfs = Some trs /\ buttons example_dfs = Some bs /\
    length bs = length sheet_names /\
    forall j sheet b,
      sheet_names !! j = Some sheet -> bs !! j = Some b ->
      length (visible_arg b) = length trs /\
      length (visible_arg b) = total_series example_dfs /\
      mask_for example_dfs sheet (visible_arg b).
Proof.
  apply (scenario_masks decimal_float example_workbook example_dfs).
  vm_compute. reflexivity.
Defined.

(** C9: the visibility the traces get when the figure is built is, trace for
    trace, the mask of the first button, the one of the default scenario
    "single_no_children". *)
Theorem initial_visibility_is_default_mask float wb d :
  dfs float wb = Some d ->
  exists trs bs b,
    fig_traces d = Some trs /\ buttons d = Some bs /\
    default_sheet = Some "single_no_children" /\
    bs !! 0%nat = Some b /\
    label b = button_label "single_no_children" /\
    tr_visible <$> trs = visible_arg b.
Proof.
  intros Hd. pose proof (dfs_loaded _ _ _ Hd) as Hl.
  destruct (dfs_figure _ _ _ Hd) as (trs & Htrs & Hvis & _).
  destruct (buttons_Some d Hl) as (bs & Hbs & HF).
  destruct (Forall2_lookup_l _ _ _ 0%nat "single_no_children" HF)
    as (b & Hb & Hlabel & Hmask); [done|].
  exists trs, bs, b. by rewrite Hmask.
Qed.

Lemma initial_visibility_is_default_mask_witness :
  exists trs bs b,
    fig_traces example_dfs = Some trs /\ buttons example_dfs = Some bs /\
    default_sheet = Some "single_no_children" /\
    bs !! 0%nat = Some b /\
    label b = button_label "single_no_children" /\
    tr_visible <$> trs = visible_arg b.
Proof.
  apply (initial_visibility_is_default_mask decimal_float example_workbook
           example_dfs).
  vm_compute. reflexivity.
Defined.

(** C10: [usecols='B:AO'] names 40 spreadsheet columns, one of which becomes
    the index, so a loaded sheet has at most 39 series; the colour list has
    40 entries; hence [colours[idx]] is defined at every country position of
    every scenario, and the figure is built without an index error. *)
Theorem colour_lookup_in_bounds float wb d :
  dfs float wb = Some d ->
  (length <$> usecols = Some 40%nat /\ length colours = 40%nat) /\
  (forall sheet t idx country,
     sheet ∈ sheet_names -> d !! sheet = Some t ->
     column_names t !! idx = Some country ->
     (length (columns t) <= 39)%nat /\ (idx < length colours)%nat /\
     is_Some (colours !! idx) /\ is_Some (trace_colour idx country)) /\
  is_Some (fig_traces d).
Proof.
  intros Hd. split; [done|]. split.
  - intros sheet t idx country Hs Ht Hidx.
    pose proof (dfs_columns_bound _ _ _ _ _ Hd Hs Ht) as Hb.
    apply lookup_lt_Some in Hidx. rewrite column_names_length in Hidx.
    rewrite colours_length.
    split; [done|]. split; [lia|]. split.
    + apply lookup_lt_is_Some_2. rewrite colours_length. lia.
    + apply trace_colour_Some. lia.
  - destruct (dfs_figure _ _ _ Hd) as (trs & -> & _). by eexists.
Qed.

Lemma colour_lookup_in_bounds_witness :
  (length <$> usecols = Some 40%nat /\ length colours = 40%nat) /\
  (forall sheet t idx country,
     sheet ∈ sheet_names -> example_dfs !! sheet = Some t ->
     column_names t !! idx = Some country ->
     (length (columns t) <= 39)%nat /\ (idx < length colours)%nat /\
     is_Some (colours !! idx) /\ is_Some (trace_colour idx country)) /\
  is_Some (fig_traces example_dfs).
Proof.
  apply (colour_lookup_in_bounds decimal_float example_workbook example_dfs).
  vm_compute. reflexivity.
Defined.

End AllIncomesDropdown.

(** ** Both scripts: views and traces line up *)

Module ViewAlignment.
Import ByTaxpayerTypeFacts ByTaxpayerTypeFigure.
Import AllIncomesLoader AllIncomesFigure AllIncomesDropdown.

Lemma traces_of_rows_modes rows :
  ByTaxpayerType.tr_mode <$> ByTaxpayerType.traces_of_rows rows
  = replicate (length rows) "lines" ++ replicate 3 "markers".
Proof.
  unfold ByTaxpayerType.traces_of_rows. rewrite fmap_app. f_equal.
  induction rows as [|r rows IH]; [done|]. cbn. by f_equal.
Qed.

Lemma build_view_layout c df :
  ByTaxpayerType.connectors_then_points (ByTaxpayerType.num_countries df)
    (ByTaxpayerType.build_view c df).
Proof.
  unfold ByTaxpayerType.connectors_then_points, ByTaxpayerType.num_countries.
  rewrite <- (sort_values_length c df).
  set (rows := ByTaxpayerType.sort_values c df).
  cbn [ByTaxpayerType.build_view ByTaxpayerType.trace_x_values
       ByTaxpayerType.trace_y_values ByTaxpayerType.trace_line_colors
       ByTaxpayerType.trace_line_widths ByTaxpayerType.country_order].
  fold rows.
  repeat split; try (rewrite length_app, length_fmap; done).
  - intros i Hi.
    destruct (lookup_lt_is_Some_2 rows i Hi) as [r Hr].
    exists (ByTaxpayerType.connector_x r), (ByTaxpayerType.Country r),
      (ByTaxpayerType.line_color r), (ByTaxpayerType.line_width r).
    rewrite !lookup_app_l by (rewrite length_fmap; done).
    rewrite !list_lookup_fmap, Hr. done.
  - intros i Hi.
    rewrite !lookup_app_r by (rewrite length_fmap; lia).
    rewrite !length_fmap.
    assert (Hk : exists k, (i - length rows)%nat = k /\ (k < 3)%nat)
      by (eexists; split; [done|lia]).
    destruct Hk as (k & -> & Hk).
    destruct k as [|[|[|k]]]; [..|lia]; eexists;
      (split; [done|]); by rewrite length_fmap.
Qed.

Lemma lookup_after_fmap {A B} (f : A -> B) (l : list A) (k : list B) j :
  ((f <$> l) ++ k) !! (length l + j)%nat = k !! j.
Proof.
  rewrite lookup_app_r by (rewrite length_fmap; lia).
  rewrite length_fmap. f_equal. lia.
Qed.

Lemma build_view_aligned c df :
  ByTaxpayerType.aligned_with_traces df
    (ByTaxpayerType.sort_values c df)
    (ByTaxpayerType.sort_values ByTaxpayerType.Single_worker df)
    (ByTaxpayerType.build_view c df)
    (ByTaxpayerType.traces_of_rows
       (ByTaxpayerType.sort_values ByTaxpayerType.Single_worker df)).
Proof.
  unfold ByTaxpayerType.aligned_with_traces, ByTaxpayerType.num_countries.
  set (rows := ByTaxpayerType.sort_values c df).
  set (rows0 := ByTaxpayerType.sort_values ByTaxpayerType.Single_worker df).
  assert (Hlen : length rows = length df) by apply sort_values_length.
  assert (Hlen0 : length rows0 = length df) by apply sort_values_length.
  cbn [ByTaxpayerType.build_view ByTaxpayerType.trace_x_values
       ByTaxpayerType.trace_y_values ByTaxpayerType.trace_line_colors
       ByTaxpayerType.trace_line_widths].
  fold rows. unfold ByTaxpayerType.traces_of_rows. split.
  - intros i r Hr. pose proof (lookup_lt_Some _ _ _ Hr) as Hi.
    rewrite !lookup_app_l by (rewrite length_fmap; lia).
    rewrite !list_lookup_fmap, Hr.
    repeat (split; [done|]).
    destruct (lookup_lt_is_Some_2 rows0 i) as [r0 Hr0]; [lia|].
    exists r0, (ByTaxpayerType.connector_of_row r0).
    split; [done|]. by rewrite Hr0.
  - intros m. rewrite <- Hlen at 1 2 3 4. rewrite <- Hlen0.
    rewrite !lookup_after_fmap.
    destruct m; cbn; (repeat (split; [done|])); eexists; by repeat split.
Qed.

(** C3: every view of either chart lines up with the chart's traces.  In
    script 1, for each sort column the four per-trace arrays of the view
    have [num_countries + 3] entries, as many as the figure has traces, and
    are laid out as the traces are: at each connector position the view
    holds a connector where the figure has its "lines" trace, and at each of
    the three last positions the view holds the values of the very measure
    the "markers" trace of the figure at that position is named for and was
    built from.  In script 2, the mask of every button has one entry per
    trace of the figure, and entry and trace at one position belong to the
    same series. *)
Theorem views_align_with_traces :
  (forall (df : list ByTaxpayerType.row) (c : ByTaxpayerType.column),
     exists v v0 trs rows rows0,
       ByTaxpayerType.sorted_data df !! ByTaxpayerType.column_name c = Some v /\
       ByTaxpayerType.sorted_data df !! ByTaxpayerType.initial_sort_column
       = Some v0 /\
       ByTaxpayerType.fig_traces df = Some trs /\
       length trs = (ByTaxpayerType.num_countries df + 3)%nat /\
       ByTaxpayerType.tr_mode <$> trs
       = replicate (ByTaxpayerType.num_countries df) "lines"
         ++ replicate 3 "markers" /\
       ByTaxpayerType.connectors_then_points
         (ByTaxpayerType.num_countries df) v /\
       rows ≡ₚ df /\ rows0 ≡ₚ df /\
       ByTaxpayerType.country_order v = ByTaxpayerType.Country <$> rows /\
       ByTaxpayerType.country_order v0 = ByTaxpayerType.Country <$> rows0 /\
       ByTaxpayerType.aligned_with_traces df rows rows0 v trs) /\
  (forall float wb d,
     AllIncomes.dfs float wb = Some d ->
     exists trs bs,
       AllIncomes.fig_traces d = Some trs /\
       AllIncomes.buttons d = Some bs /\
       AllIncomes.tr_name <$> trs = snd <$> AllIncomes.trace_keys d /\
       Forall2 (fun sheet b =>
                  length (AllIncomes.visible_arg b) = length trs /\
                  AllIncomes.visible_arg b
                  = AllIncomes.mask_entry_for sheet
                    <$> AllIncomes.trace_keys d)
               AllIncomes.sheet_names bs).
Proof.
  split.
  - intros df c.
    exists (ByTaxpayerType.build_view c df),
      (ByTaxpayerType.build_view ByTaxpayerType.Single_worker df),
      (ByTaxpayerType.traces_of_rows
         (ByTaxpayerType.sort_values ByTaxpayerType.Single_worker df)),
      (ByTaxpayerType.sort_values c df),
      (ByTaxpayerType.sort_values ByTaxpayerType.Single_worker df).
    split; [apply sorted_data_lookup|].
    split; [apply (sorted_data_lookup df ByTaxpayerType.Single_worker)|].
    split; [apply fig_traces_eq|].
    split; [by rewrite traces_of_rows_length, sort_values_length|].
    split; [by rewrite traces_of_rows_modes, sort_values_length|].
    split; [apply build_view_layout|].
    split; [apply sort_values_perm|]. split; [apply sort_values_perm|].
    split; [done|]. split; [done|].
    apply build_view_aligned.
  - intros float wb d Hd. pose proof (dfs_loaded _ _ _ Hd) as Hl.
    destruct (dfs_figure _ _ _ Hd) as (trs & Htrs & Hvis & Hname).
    destruct (buttons_Some d Hl) as (bs & Hbs & HF).
    exists trs, bs. repeat (split; [done|]).
    eapply Forall2_impl; [exact HF|].
    intros sheet b [_ ->]. split; [|done].
    apply (f_equal length) in Hname. rewrite !length_fmap in Hname.
    by rewrite length_fmap.
Qed.

(** The second half on the example workbook. *)
Lemma views_align_with_traces_witness :
  exists trs bs,
    AllIncomes.fig_traces AllIncomes.example_dfs = Some trs /\
    AllIncomes.buttons AllIncomes.example_dfs = Some bs /\
    AllIncomes.tr_name <$> trs
    = snd <$> AllIncomes.trace_keys AllIncomes.example_dfs /\
    Forall2 (fun sheet b =>
               length (AllIncomes.visible_arg b) = length trs /\
               AllIncomes.visible_arg b
               = AllIncomes.mask_entry_for sheet
                 <$> AllIncomes.trace_keys AllIncomes.example_dfs)
            AllIncomes.sheet_names bs.
Proof.
  apply (proj2 views_align_with_traces AllIncomes.decimal_float
           AllIncomes.example_workbook AllIncomes.example_dfs).
  vm_compute. reflexivity.
Defined.

End ViewAlignment.

(** ** Script 2: gap filling *)

Module AllIncomesInterpolation.
Import AllIncomes.



Lemma last_valid_from_none col : forall pos acc,
  (forall m, (m < length col)%nat -> col !! m = Some None) ->
  last_valid_from pos col acc = acc.
Proof.
  induction col as [|v col IH]; intros pos acc H; [done|].
  assert (v = None) as ->.
  { specialize (H 0%nat ltac:(cbn; lia)). by injection H. }
  cbn. apply IH. intros m Hm. apply (H (S m)). cbn. lia.
Qed.



Lemma prev_valid_none col i :
  (i <= length col)%nat -> none_before col i -> prev_valid col i = None.
Proof.
  intros Hi H. unfold prev_valid. apply last_valid_from_none.
  intros m Hm. rewrite length_take in Hm.
  rewrite lookup_take_lt by lia. apply H. lia.
Qed.





Lemma interpolate_column_lookup col i :
  interpolate_column col !! i = interpolate_at col i <$> col !! i.
Proof. apply list_lookup_imap. Qed.

Lemma interpolate_column_complete col :
  forallb (fun v : option Q => bool_decide (is_Some v)) col = true ->
  interpolate_column col = col.
Proof.
  intros H. apply list_eq. intros i. rewrite interpolate_column_lookup.
  destruct (col !! i) as [[v|]|] eqn:Hi; [done| |done].
  exfalso. rewrite forallb_forall in H.
  specialize (H None). rewrite bool_decide_eq_true in H.
  destruct H as [? [=]]. apply list_elem_of_In. by eapply list_elem_of_lookup_2.
Qed.





(** C6: on a table without missing values the gap filling changes nothing,
    so filling twice is the same as filling once. *)
Theorem fill_complete_identity (t : table) :
  complete t = true ->
  interpolate t = t /\ interpolate (interpolate t) = interpolate t.
Proof.
  intros H.
  assert (E : interpolate t = t); [|by rewrite !E].
  destruct t as [idx cols]. unfold interpolate, complete in *.
  cbn [index columns] in *.
  f_equal. rewrite <- (list_fmap_id cols) at 2.
  apply Forall_fmap_ext, Forall_forall. intros [name col] Hin.
  rewrite forallb_forall in H.
  specialize (H (name, col)). cbn [fst snd] in *.
  rewrite interpolate_column_complete; [done|].
  apply H. by apply list_elem_of_In.
Qed.

(** The example sheet without gaps. *)
Lemma fill_complete_identity_witness :
  interpolate complete_tmp = complete_tmp /\
  interpolate (interpolate complete_tmp) = interpolate complete_tmp.
Proof.
  apply (fill_complete_identity complete_tmp).
  vm_compute. reflexivity.
Defined.

End AllIncomesInterpolation.

(** ** Script 1: further properties of the views *)

Module ByTaxpayerTypeRows.
Import ByTaxpayerType ByTaxpayerTypeFacts.

Lemma complete_row_Some raw r :
  complete_row raw = Some r <->
  raw = {| cell_A := Some (Country r); cell_B := Some (single_worker r);
           cell_C := Some (family_single_earner r);
           cell_D := Some (family_two_earners r) |}.
Proof.
  destruct raw as [[a|] [b|] [c|] [d|]], r as [n x y z];
    unfold complete_row; cbn; split; intros H; try discriminate H;
    by injection H as -> -> -> ->.
Qed.

(** X1: a country is on the chart, in the view of every sort column, exactly
    when the sheet has a row for it in which none of the four cells is
    missing; a row with a missing cell is never shown. *)
Theorem shown_countries_are_complete_rows
  (sheet : list raw_row) (c : column) (name : string) :
  name ∈ country_order (build_view c (dropna sheet)) <->
  exists x y z,
    {| cell_A := Some name; cell_B := Some x;
       cell_C := Some y; cell_D := Some z |} ∈ sheet.
Proof.
  cbn [build_view country_order]. rewrite sort_values_perm.
  rewrite list_elem_of_fmap. unfold dropna. split.
  - intros (r & -> & Hr). apply list_elem_of_omap in Hr as (raw & Hraw & Hc).
    apply complete_row_Some in Hc as ->. eauto.
  - intros (x & y & z & Hin).
    exists {| Country := name; single_worker := x;
              family_single_earner := y; family_two_earners := z |}.
    split; [done|]. apply list_elem_of_omap. eexists. split; [exact Hin|done].
Qed.

Lemma zip_fmap_same {A B C} (f : A -> B) (g : A -> C) (l : list A) :
  zip (f <$> l) (g <$> l) = (fun x => (f x, g x)) <$> l.
Proof. induction l as [|x l IH]; [done|]. cbn. by f_equal. Qed.

Lemma take_fmap_app {A B} (f : A -> B) (l : list A) (k : list B) :
  take (length l) ((f <$> l) ++ k) = f <$> l.
Proof. rewrite <- (length_fmap f l). apply take_app_length. Qed.

Lemma lookup_fmap_app_r {A B} (f : A -> B) (l : list A) (k : list B) j :
  ((f <$> l) ++ k) !! (length l + j)%nat = k !! j.
Proof.
  rewrite lookup_app_r by (rewrite length_fmap; lia).
  rewrite length_fmap. f_equal. lia.
Qed.

Lemma view_connectors_rows c df :
  view_connectors (num_countries df) (build_view c df)
  = (fun r => (Country r,
               (connector_x r, (Some (line_color r), Some (line_width r)))))
    <$> sort_values c df.
Proof.
  unfold view_connectors, num_countries.
  rewrite <- (sort_values_length c df).
  cbn [build_view country_order trace_x_values trace_line_colors
       trace_line_widths].
  rewrite !take_fmap_app. rewrite !zip_fmap_same. done.
Qed.

(** X2: whatever the sort column, the chart shows the same connectors: the
    connectors of two views, each taken with its country, its x triple, its
    colour and its width, are permutations of one another. *)
Theorem views_show_same_connectors (df : list row) (c c' : column) :
  exists v v',
    sorted_data df !! column_name c = Some v /\
    sorted_data df !! column_name c' = Some v' /\
    view_connectors (num_countries df) v
    ≡ₚ view_connectors (num_countries df) v'.
Proof.
  exists (build_view c df), (build_view c' df).
  split; [apply sorted_data_lookup|]. split; [apply sorted_data_lookup|].
  rewrite !view_connectors_rows.
  apply fmap_Permutation. by rewrite !sort_values_perm.
Qed.

(** X3: in every view the markers sit on the connectors: the value of the
    [k]-th point trace at row [i] is the [k]-th coordinate of the connector
    of row [i], and every point trace has the countries of the rows as its y
    values. *)
Theorem markers_on_connectors (df : list row) (c : column) (i k : nat) :
  (i < num_countries df)%nat -> (k < 3)%nat ->
  exists x,
    trace_x_values (build_view c df) !! (num_countries df + k)%nat
      ≫= (fun xs => xs !! i) = Some x /\
    trace_x_values (build_view c df) !! i ≫= (fun xs => xs !! k) = Some x /\
    trace_y_values (build_view c df) !! (num_countries df + k)%nat
    = Some (country_order (build_view c df)).
Proof.
  unfold num_countries. rewrite <- (sort_values_length c df).
  intros Hi Hk.
  destruct (lookup_lt_is_Some_2 _ i Hi) as [r Hr].
  cbn [build_view trace_x_values trace_y_values country_order].
  rewrite !lookup_fmap_app_r.
  rewrite lookup_app_l by (rewrite length_fmap; lia).
  rewrite list_lookup_fmap, Hr.
  destruct k as [|[|[|k]]]; [..|lia]; cbn; rewrite list_lookup_fmap, Hr;
    eexists; (split; [reflexivity|]); (split; reflexivity).
Qed.

Lemma markers_on_connectors_witness :
  exists x,
    trace_x_values (build_view Family_two_earners (dropna [france; spain]))
      !! (num_countries (dropna [france; spain]) + 2)%nat
      ≫= (fun xs => xs !! 0%nat) = Some x /\
    trace_x_values (build_view Family_two_earners (dropna [france; spain]))
      !! 0%nat ≫= (fun xs => xs !! 2%nat) = Some x /\
    trace_y_values (build_view Family_two_earners (dropna [france; spain]))
      !! (num_countries (dropna [france; spain]) + 2)%nat
    = Some (country_order
              (build_view Family_two_earners (dropna [france; spain]))).
Proof.
  apply (markers_on_connectors (dropna [france; spain]) Family_two_earners
           0 2); vm_compute; lia.
Defined.

(** X4: the highlight follows the country through every view: at each row,
    the connector is red and 3 wide and the tick label is wrapped in the
    highlight markup when the row's country is "United Kingdom", and the
    connector is gray and 1.5 wide and the tick label is the bare name
    otherwise. *)
Theorem highlight_follows_country
  (df : list row) (c : column) (i : nat) (country : string) :
  country_order (build_view c df) !! i = Some country ->
  (country = "United Kingdom" ->
   trace_line_colors (build_view c df) !! i = Some (Some "red") /\
   trace_line_widths (build_view c df) !! i = Some (Some 3%Q) /\
   tick_labels (build_view c df) !! i = Some (marked_up country)) /\
  (country <> "United Kingdom" ->
   trace_line_colors (build_view c df) !! i = Some (Some "gray") /\
   trace_line_widths (build_view c df) !! i = Some (Some (3 # 2)%Q) /\
   tick_labels (build_view c df) !! i = Some country).
Proof.
  cbn [build_view country_order trace_line_colors trace_line_widths
       tick_labels].
  rewrite list_lookup_fmap. intros Hc.
  destruct (sort_values c df !! i) as [r|] eqn:Hr; [|done].
  injection Hc as <-.
  pose proof (lookup_lt_Some _ _ _ Hr) as Hi.
  rewrite !lookup_app_l by (rewrite length_fmap; lia).
  rewrite !list_lookup_fmap, Hr.
  unfold line_color, line_width, tick_label, is_uk.
  cbn [fmap option_fmap option_map].
  split; intros Huk.
  - rewrite !bool_decide_eq_true_2 by done. by rewrite Huk.
  - rewrite !bool_decide_eq_false_2 by done. done.
Qed.

Lemma highlight_follows_country_witness :
  trace_line_colors (build_view Family_two_earners (dropna [france; spain]))
    !! 0%nat = Some (Some "gray") /\
  trace_line_widths (build_view Family_two_earners (dropna [france; spain]))
    !! 0%nat = Some (Some (3 # 2)%Q) /\
  tick_labels (build_view Family_two_earners (dropna [france; spain]))
    !! 0%nat = Some "Spain".
Proof.
  apply (highlight_follows_country (dropna [france; spain])
           Family_two_earners 0 "Spain").
  - reflexivity.
  - discriminate.
Defined.

End ByTaxpayerTypeRows.

(** ** Script 1: how the controls compose *)

Module ByTaxpayerTypeSwitching.
Import ByTaxpayerType ByTaxpayerTypeFacts ByTaxpayerTypeControls.
Import ByTaxpayerTypeFigure.

(** A restyle over all of the first [m] traces, trace by trace. *)
Lemma restyle_lookup upd m : forall trs i,
  restyle upd (seq 0 m) trs !! i
  = if bool_decide (i < m)%nat
    then (fun tr => foldl (fun t e => restyle_trace e i t) tr upd)
         <$> trs !! i
    else trs !! i.
Proof.
  unfold restyle. induction upd as [|e upd IH]; intros trs i; cbn [foldl].
  - case_bool_decide; [|done]. by destruct (trs !! i).
  - rewrite IH, restyle_entry_from_seq.
    destruct (decide (i < m)%nat).
    + rewrite !bool_decide_eq_true_2 by lia. by destruct (trs !! i).
    + rewrite !bool_decide_eq_false_2 by lia. done.
Qed.

Lemma restyle_length upd indices : forall trs,
  length (restyle upd indices trs) = length trs.
Proof.
  unfold restyle. induction upd as [|e upd IH]; intros trs; cbn [foldl];
    [done|]. by rewrite IH, restyle_entry_from_length.
Qed.

Lemma value_at_is_Some {A} (vals : list A) i :
  (0 < length vals)%nat -> is_Some (value_at vals i).
Proof.
  intros H. unfold value_at. apply lookup_lt_is_Some_2.
  apply Nat.mod_upper_bound. lia.
Qed.

Lemma build_view_lengths c df :
  length (trace_x_values (build_view c df)) = (num_countries df + 3)%nat /\
  length (trace_y_values (build_view c df)) = (num_countries df + 3)%nat /\
  length (trace_line_colors (build_view c df)) = (num_countries df + 3)%nat /\
  length (trace_line_widths (build_view c df)) = (num_countries df + 3)%nat.
Proof.
  unfold num_countries. cbn [build_view trace_x_values trace_y_values
    trace_line_colors trace_line_widths].
  by rewrite !length_app, !length_fmap, !sort_values_length.
Qed.

Lemma installed_trace_is_Some c df i tr :
  is_Some (installed_trace (build_view c df) i tr).
Proof.
  destruct (build_view_lengths c df) as (Hx & Hy & Hc & Hw).
  unfold installed_trace.
  destruct (value_at_is_Some (trace_x_values (build_view c df)) i) as [? ->];
    [lia|].
  destruct (value_at_is_Some (trace_y_values (build_view c df)) i) as [? ->];
    [lia|].
  destruct (value_at_is_Some (trace_line_colors (build_view c df)) i)
    as [? ->]; [lia|].
  destruct (value_at_is_Some (trace_line_widths (build_view c df)) i)
    as [? ->]; [lia|].
  by eexists.
Qed.

(** What selecting an option does to the trace at position [i]. *)
Lemma select_option_lookup c df ch i :
  traces (select_option (make_button c (build_view c df)) ch) !! i
  = traces ch !! i ≫= installed_trace (build_view c df) i.
Proof.
  unfold select_option. rewrite relayout_traces. cbn [traces].
  rewrite restyle_lookup.
  destruct (traces ch !! i) as [tr|] eqn:Htr.
  - rewrite bool_decide_eq_true_2 by by eapply lookup_lt_Some.
    destruct (installed_trace_is_Some c df i tr) as [tr' Htr'].
    cbn [mbind option_bind fmap option_fmap option_map].
    rewrite Htr'. unfold installed_trace in Htr'.
    cbn [make_button restyle_args foldl restyle_trace].
    destruct (value_at (trace_x_values (build_view c df)) i); [|done].
    destruct (value_at (trace_y_values (build_view c df)) i); [|done].
    destruct (value_at (trace_line_colors (build_view c df)) i); [|done].
    destruct (value_at (trace_line_widths (build_view c df)) i); [|done].
    cbn in *. done.
  - by case_bool_decide.
Qed.

Lemma select_option_layout c df ch :
  ticktext (select_option (make_button c (build_view c df)) ch)
  = tick_labels (build_view c df) /\
  tickvals (select_option (make_button c (build_view c df)) ch)
  = country_order (build_view c df) /\
  autorange (select_option (make_button c (build_view c df)) ch)
  = "reversed".
Proof. done. Qed.

Lemma chart_eq ch ch' :
  traces ch = traces ch' -> ticktext ch = ticktext ch' ->
  tickvals ch = tickvals ch' -> autorange ch = autorange ch' -> ch = ch'.
Proof. destruct ch, ch'; cbn. by intros -> -> -> ->. Qed.

Lemma installed_trace_fields c df i tr tr' :
  (i < num_countries df + 3)%nat ->
  installed_trace (build_view c df) i tr = Some tr' ->
  trace_x_values (build_view c df) !! i = Some (tr_x tr') /\
  trace_y_values (build_view c df) !! i = Some (tr_y tr') /\
  trace_line_colors (build_view c df) !! i = Some (tr_line_color tr') /\
  trace_line_widths (build_view c df) !! i = Some (tr_line_width tr') /\
  tr_mode tr' = tr_mode tr /\ tr_name tr' = tr_name tr /\
  tr_visible tr' = tr_visible tr.
Proof.
  intros Hi. destruct (build_view_lengths c df) as (Hx & Hy & Hc & Hw).
  unfold installed_trace. rewrite !value_at_lookup by lia.
  destruct (trace_x_values (build_view c df) !! i); [|done].
  destruct (trace_y_values (build_view c df) !! i); [|done].
  destruct (trace_line_colors (build_view c df) !! i); [|done].
  destruct (trace_line_widths (build_view c df) !! i); [|done].
  cbn. by intros [= <-].
Qed.

Lemma select_option_length b ch :
  length (traces (select_option b ch)) = length (traces ch).
Proof.
  unfold select_option. rewrite relayout_traces. cbn [traces].
  apply restyle_length.
Qed.

(** The projection [f] of the traces after a selection is the array [arr]
    of the view, when each trace takes its value from [arr]. *)
Lemma select_option_array {A} (f : trace -> A) (arr : list A) c df ch :
  length (traces ch) = (num_countries df + 3)%nat ->
  length arr = (num_countries df + 3)%nat ->
  (forall i tr tr',
     (i < num_countries df + 3)%nat ->
     installed_trace (build_view c df) i tr = Some tr' ->
     arr !! i = Some (f tr')) ->
  f <$> traces (select_option (make_button c (build_view c df)) ch) = arr.
Proof.
  intros Hlen Harr H. apply list_eq. intros i.
  rewrite list_lookup_fmap, select_option_lookup.
  destruct (traces ch !! i) as [tr|] eqn:Htr.
  - pose proof (lookup_lt_Some _ _ _ Htr) as Hi. rewrite Hlen in Hi.
    destruct (installed_trace_is_Some c df i tr) as [tr' Htr'].
    cbn. rewrite Htr'. cbn. symmetry. by eapply H.
  - apply lookup_ge_None in Htr. cbn. symmetry. apply lookup_ge_None. lia.
Qed.

Lemma select_option_kept {A} (f : trace -> A) c df ch :
  (forall i tr tr',
     installed_trace (build_view c df) i tr = Some tr' -> f tr' = f tr) ->
  f <$> traces (select_option (make_button c (build_view c df)) ch)
  = f <$> traces ch.
Proof.
  intros H. apply list_eq. intros i.
  rewrite !list_lookup_fmap, select_option_lookup.
  destruct (traces ch !! i) as [tr|] eqn:Htr; [|done].
  destruct (installed_trace_is_Some c df i tr) as [tr' Htr'].
  cbn. rewrite Htr'. cbn. f_equal. by eapply H.
Qed.

Lemma installed_trace_kept v i tr tr' :
  installed_trace v i tr = Some tr' ->
  tr_mode tr' = tr_mode tr /\ tr_name tr' = tr_name tr /\
  tr_visible tr' = tr_visible tr.
Proof.
  unfold installed_trace.
  destruct (value_at (trace_x_values v) i); [|done].
  destruct (value_at (trace_y_values v) i); [|done].
  destruct (value_at (trace_line_colors v) i); [|done].
  destruct (value_at (trace_line_widths v) i); [|done].
  cbn. by intros [= <-].
Qed.

(** X5: selecting a sort option in a chart with its [num_countries + 3]
    traces installs the option's view: afterwards the x values, y values,
    line colours and line widths of the traces are the four arrays of the
    view, the tick texts and tick values are its tick labels and its country
    order, and mode and name of every trace are as before. *)
Theorem option_installs_view (df : list row) (c : column) (ch : chart) :
  length (traces ch) = (num_countries df + 3)%nat ->
  let v := build_view c df in
  let ch' := select_option (make_button c v) ch in
  tr_x <$> traces ch' = trace_x_values v /\
  tr_y <$> traces ch' = trace_y_values v /\
  tr_line_color <$> traces ch' = trace_line_colors v /\
  tr_line_width <$> traces ch' = trace_line_widths v /\
  tr_mode <$> traces ch' = tr_mode <$> traces ch /\
  tr_name <$> traces ch' = tr_name <$> traces ch /\
  ticktext ch' = tick_labels v /\
  tickvals ch' = country_order v.
Proof.
  intros Hlen v ch'. subst v ch'.
  destruct (build_view_lengths c df) as (Hx & Hy & Hc & Hw).
  repeat split.
  - apply select_option_array; [done..|].
    intros i tr tr' Hi Htr. by apply (installed_trace_fields c df i tr tr').
  - apply select_option_array; [done..|].
    intros i tr tr' Hi Htr. by apply (installed_trace_fields c df i tr tr').
  - apply select_option_array; [done..|].
    intros i tr tr' Hi Htr. by apply (installed_trace_fields c df i tr tr').
  - apply select_option_array; [done..|].
    intros i tr tr' Hi Htr. by apply (installed_trace_fields c df i tr tr').
  - apply select_option_kept. intros i tr tr' Htr.
    by destruct (installed_trace_kept _ _ _ _ Htr) as (? & ? & ?).
  - apply select_option_kept. intros i tr tr' Htr.
    by destruct (installed_trace_kept _ _ _ _ Htr) as (? & ? & ?).
Qed.

(** The view sorted by the third measure installed in the initial chart of
    France and Spain. *)
Lemma option_installs_view_witness :
  let df := dropna [france; spain] in
  let v := build_view Family_two_earners df in
  let ch' := select_option (make_button Family_two_earners v)
                           (shown_chart df) in
  tr_x <$> traces ch' = trace_x_values v /\
  tr_y <$> traces ch' = trace_y_values v /\
  tr_line_color <$> traces ch' = trace_line_colors v /\
  tr_line_width <$> traces ch' = trace_line_widths v /\
  tr_mode <$> traces ch' = tr_mode <$> traces (shown_chart df) /\
  tr_name <$> traces ch' = tr_name <$> traces (shown_chart df) /\
  ticktext ch' = tick_labels v /\
  tickvals ch' = country_order v.
Proof.
  intros df.
  apply (option_installs_view df Family_two_earners (shown_chart df)).
  reflexivity.
Defined.

(** X6: the last selection wins: selecting one sort option after another
    gives the chart that selecting the second alone gives, and selecting an
    option twice is the same as selecting it once. *)
Theorem last_selection_wins (df : list row) (c c' : column) (ch : chart) :
  select_option (make_button c (build_view c df))
    (select_option (make_button c' (build_view c' df)) ch)
  = select_option (make_button c (build_view c df)) ch.
Proof.
  apply chart_eq; try done.
  apply list_eq. intros i. rewrite !select_option_lookup.
  destruct (traces ch !! i) as [tr|]; [|done]. cbn.
  destruct (installed_trace_is_Some c' df i tr) as [tr' Htr'].
  rewrite Htr'. cbn.
  apply installed_trace_kept in Htr' as (Hm & Hn & Hv).
  unfold installed_trace. by rewrite Hm, Hn, Hv.
Qed.

Lemma shown_chart_lookup_connector df i r :
  sort_values Single_worker df !! i = Some r ->
  traces (shown_chart df) !! i = Some (connector_of_row r).
Proof.
  intros Hr. cbn [shown_chart traces]. unfold traces_of_rows.
  rewrite lookup_app_l
    by (rewrite length_fmap; by eapply lookup_lt_Some).
  by rewrite list_lookup_fmap, Hr.
Qed.

Lemma initial_chart_eq df : initial_chart df = Some (shown_chart df).
Proof.
  unfold initial_chart.
  change initial_sort_column with (column_name Single_worker).
  rewrite sorted_data_lookup, fig_traces_eq. done.
Qed.

(** X7: the figure always builds, and the chart first displayed is the one
    the first sort option installs: selecting "Single Worker" in the initial
    chart changes nothing. *)
Theorem initial_chart_is_first_option (df : list row) :
  initial_chart df = Some (shown_chart df) /\
  select_option (make_button Single_worker (build_view Single_worker df))
                (shown_chart df)
  = shown_chart df.
Proof.
  split; [apply initial_chart_eq|].
  apply chart_eq; try done.
  apply list_eq. intros i. rewrite select_option_lookup.
  destruct (traces (shown_chart df) !! i) as [tr|] eqn:Htr; [|done].
  cbn [mbind option_bind].
  pose proof (lookup_lt_Some _ _ _ Htr) as Hi.
  cbn [shown_chart traces] in Hi, Htr.
  rewrite traces_of_rows_length, sort_values_length in Hi.
  destruct (installed_trace_is_Some Single_worker df i tr) as [tr' Htr'].
  rewrite Htr'. f_equal.
  destruct (installed_trace_fields Single_worker df i tr tr' Hi Htr')
    as (Hx & Hy & Hc & Hw & Hm & Hn & Hv).
  unfold traces_of_rows in Htr.
  destruct (decide (i < length (sort_values Single_worker df))%nat)
    as [Hlt|Hge].
  - rewrite lookup_app_l in Htr by by rewrite length_fmap.
    rewrite list_lookup_fmap in Htr.
    destruct (sort_values Single_worker df !! i) as [r|] eqn:Hr; [|done].
    injection Htr as <-.
    pose proof (connector_trace_row Single_worker df i r Hr) as E.
    unfold connector_trace in E. rewrite Hx, Hy, Hc, Hw in E.
    destruct tr' as [x' y' m' lc' lw' nm' vis'].
    unfold connector_of_row in *. by simplify_eq/=.
  - rewrite sort_values_length in Hge.
    assert (Hk : exists k, i = (length df + k)%nat /\ (k < 3)%nat)
      by (exists (i - length df)%nat; lia).
    destruct Hk as (k & -> & Hk).
    pose proof (point_trace_rows Single_worker df k) as E.
    unfold point_trace, num_countries in E.
    rewrite Hx, Hy in E.
    revert Hc Hw. cbn [build_view trace_line_colors trace_line_widths].
    rewrite <- (sort_values_length Single_worker df) in *.
    rewrite !ByTaxpayerTypeRows.lookup_fmap_app_r in *.
    intros Hc Hw.
    destruct tr as [x y m lc lw nm vis], tr' as [x' y' m' lc' lw' nm' vis'].
    specialize (E ""%string Hk). unfold points_of_rows in *.
    cbn [build_view trace_x_values trace_y_values] in Hx, Hy.
    try rewrite !ByTaxpayerTypeRows.lookup_fmap_app_r in Hx.
    try rewrite !ByTaxpayerTypeRows.lookup_fmap_app_r in Hy.
    destruct k as [|[|[|k]]]; [..|lia]; cbn in Htr, Hx, Hy, Hc, Hw, E;
      injection Htr as <- <- <- <- <- <- <-;
      injection Hx as <-; injection Hy as <-;
      injection Hc as <-; injection Hw as <-; cbn in *; by subst.
Qed.

(** The visibilities a click on the toggle assigns. *)
Lemma toggle_args df k :
  (match k with
   | With_args => args (toggle_connectors_button df)
   | With_args2 => args2 (toggle_connectors_button df)
   end)
  = ([Set_visible (replicate (num_countries df) (toggled_to k)
                   ++ [VisTrue; VisTrue; VisTrue])],
     seq 0 (num_countries df + 3)).
Proof. destruct k; cbn; by rewrite all_trace_indices_seq. Qed.

Lemma toggle_value df k i :
  is_Some (value_at (replicate (num_countries df) (toggled_to k)
                     ++ [VisTrue; VisTrue; VisTrue]) i).
Proof. apply value_at_is_Some. rewrite length_app. cbn. lia. Qed.

(** What a click on the toggle does to the trace at position [i]. *)
Lemma click_toggle_lookup df k ch i :
  traces (click_toggle (toggle_connectors_button df) k ch) !! i
  = if bool_decide (i < num_countries df + 3)%nat
    then restyle_trace
           (Set_visible (replicate (num_countries df) (toggled_to k)
                         ++ [VisTrue; VisTrue; VisTrue])) i
         <$> traces ch !! i
    else traces ch !! i.
Proof.
  unfold click_toggle. rewrite toggle_args. cbn [traces fst snd].
  rewrite restyle_lookup. done.
Qed.

(** X8: a click on the toggle touches nothing but visibility: coordinates,
    line style, mode and name of every trace, the number of traces and the
    axis ticks are as before, whatever the chart shows. *)
Theorem toggle_changes_only_visibility
  (df : list row) (k : toggle_click) (ch : chart) :
  let ch' := click_toggle (toggle_connectors_button df) k ch in
  length (traces ch') = length (traces ch) /\
  tr_x <$> traces ch' = tr_x <$> traces ch /\
  tr_y <$> traces ch' = tr_y <$> traces ch /\
  tr_line_color <$> traces ch' = tr_line_color <$> traces ch /\
  tr_line_width <$> traces ch' = tr_line_width <$> traces ch /\
  tr_mode <$> traces ch' = tr_mode <$> traces ch /\
  tr_name <$> traces ch' = tr_name <$> traces ch /\
  ticktext ch' = ticktext ch /\ tickvals ch' = tickvals ch /\
  autorange ch' = autorange ch.
Proof.
  intros ch'. subst ch'.
  assert (H : forall {A} (f : trace -> A),
             (forall vals pos tr,
                f (restyle_trace (Set_visible vals) pos tr) = f tr) ->
             f <$> traces (click_toggle (toggle_connectors_button df) k ch)
             = f <$> traces ch).
  { intros A f Hf. apply list_eq. intros i.
    rewrite !list_lookup_fmap, click_toggle_lookup.
    case_bool_decide; [|done].
    destruct (traces ch !! i); [|done].
    cbn [fmap option_fmap option_map]. by rewrite Hf. }
  split.
  { unfold click_toggle. cbn [traces]. apply restyle_length. }
  repeat split; try apply H; intros vals pos tr; cbn;
    by destruct (value_at vals pos).
Qed.

Lemma restyle_visible_commutes v vals i tr :
  installed_trace v i (restyle_trace (Set_visible vals) i tr)
  = restyle_trace (Set_visible vals) i <$> installed_trace v i tr.
Proof.
  unfold installed_trace.
  destruct (value_at (trace_x_values v) i); [|done].
  destruct (value_at (trace_y_values v) i); [|done].
  destruct (value_at (trace_line_colors v) i); [|done].
  destruct (value_at (trace_line_widths v) i); [|done].
  cbn. by destruct (value_at vals i).
Qed.

(** X9: the two controls do not interfere: a click on the toggle followed by
    the selection of a sort option gives the same chart as the selection
    followed by the click. *)
Theorem toggle_commutes_with_selection
  (df : list row) (c : column) (k : toggle_click) (ch : chart) :
  select_option (make_button c (build_view c df))
    (click_toggle (toggle_connectors_button df) k ch)
  = click_toggle (toggle_connectors_button df) k
      (select_option (make_button c (build_view c df)) ch).
Proof.
  apply chart_eq; try done.
  apply list_eq. intros i.
  rewrite select_option_lookup, !click_toggle_lookup, select_option_lookup.
  case_bool_decide; [|done].
  destruct (traces ch !! i) as [tr|]; [|done].
  cbn [fmap option_fmap option_map mbind option_bind].
  apply restyle_visible_commutes.
Qed.

Lemma shown_chart_visible df :
  Forall (fun tr => tr_visible tr = VisTrue) (traces (shown_chart df)).
Proof.
  cbn [shown_chart traces]. unfold traces_of_rows.
  apply Forall_app. split; [|by repeat constructor].
  by apply Forall_fmap, Forall_forall.
Qed.

Lemma toggle_value_args2 df i :
  value_at (replicate (num_countries df) VisTrue
            ++ [VisTrue; VisTrue; VisTrue]) i = Some VisTrue.
Proof.
  destruct (toggle_value df With_args2 i) as [v Hv]. cbn in Hv.
  rewrite Hv. f_equal. unfold value_at in Hv.
  apply list_elem_of_lookup_2 in Hv.
  apply elem_of_app in Hv as [Hv|Hv].
  - by apply elem_of_replicate in Hv as [-> _].
  - repeat (apply elem_of_cons in Hv as [->|Hv]; [done|]).
    by apply elem_of_nil in Hv.
Qed.

(** X10: the last click on the toggle wins, whatever the chart shows, and
    hiding the connectors of the initial chart and showing them again gives
    the initial chart back. *)
Theorem toggle_round_trip (df : list row) :
  (forall k k' ch,
     click_toggle (toggle_connectors_button df) k'
       (click_toggle (toggle_connectors_button df) k ch)
     = click_toggle (toggle_connectors_button df) k' ch) /\
  click_toggle (toggle_connectors_button df) With_args2
    (click_toggle (toggle_connectors_button df) With_args (shown_chart df))
  = shown_chart df.
Proof.
  assert (Hlast : forall k k' ch,
     click_toggle (toggle_connectors_button df) k'
       (click_toggle (toggle_connectors_button df) k ch)
     = click_toggle (toggle_connectors_button df) k' ch).
  { intros k k' ch. apply chart_eq; try done.
    apply list_eq. intros i. rewrite !click_toggle_lookup.
    case_bool_decide; [|done].
    destruct (traces ch !! i) as [tr|]; [|done]. cbn. f_equal.
    destruct (toggle_value df k i) as [v ->].
    by destruct (toggle_value df k' i) as [v' ->]. }
  split; [exact Hlast|]. rewrite Hlast.
  apply chart_eq; try done.
  apply list_eq. intros i. rewrite click_toggle_lookup.
  case_bool_decide; [|done].
  destruct (traces (shown_chart df) !! i) as [tr|] eqn:Htr; [|done].
  cbn [fmap option_fmap option_map]. f_equal.
  pose proof (shown_chart_visible df) as Hvis.
  rewrite Forall_lookup in Hvis. specialize (Hvis i tr Htr).
  cbn [toggled_to restyle_trace]. rewrite toggle_value_args2.
  destruct tr. cbn in *. by subst.
Qed.

End ByTaxpayerTypeSwitching.

(** ** Script 2: further properties of the loader *)

Module AllIncomesTables.
Import AllIncomes AllIncomesLoader AllIncomesInterpolation.

Lemma dfs_step_None float wb sheet : dfs_step float wb None sheet = None.
Proof. done. Qed.

Lemma dfs_unfold float wb :
  dfs float wb
  = dfs_step float wb
      (dfs_step float wb
         (dfs_step float wb
            (dfs_step float wb (Some ∅) "single_no_children")
            "single_two_children")
         "married_2_children")
      "married_no_children".
Proof. reflexivity. Qed.

Lemma dfs_dom float wb d :
  dfs float wb = Some d -> dom d = list_to_set sheet_names.
Proof.
  intros Hd. rewrite dfs_unfold in Hd.
  apply dfs_step_Some in Hd as (d3 & t3 & Hd & _ & ->).
  apply dfs_step_Some in Hd as (d2 & t2 & Hd & _ & ->).
  apply dfs_step_Some in Hd as (d1 & t1 & Hd & _ & ->).
  apply dfs_step_Some in Hd as (d0 & t0 & Hd & _ & ->).
  injection Hd as <-. rewrite !dom_insert_L, dom_empty_L.
  unfold sheet_names. cbn [list_to_set]. set_solver.
Qed.

Lemma strip_prefix_percent s :
  no_percent s = true ->
  forall c s', s = String c s' -> strip_prefix index_suffix s = None.
Proof.
  intros H c s' ->. unfold no_percent in H. cbn in H.
  apply andb_true_iff in H as [H _].
  unfold index_suffix. cbn [strip_prefix].
  destruct (Ascii.eqb "%" c) eqn:E; [|done].
  apply Ascii.eqb_eq in E as <-. done.
Qed.

Lemma remove_all_fuel_no_percent s : forall fuel,
  no_percent s = true ->
  (String.length s <= fuel)%nat ->
  remove_all_fuel fuel index_suffix s = s.
Proof.
  induction s as [|c s IH]; intros fuel H Hf.
  - by destruct fuel.
  - destruct fuel as [|fuel]; [cbn in Hf; lia|].
    cbn [remove_all_fuel].
    rewrite (strip_prefix_percent _ H c s eq_refl).
    f_equal. apply IH; [|cbn in Hf; lia].
    unfold no_percent in *. cbn in H.
    by apply andb_true_iff in H as [_ H].
Qed.

Lemma remove_all_fuel_suffix s : forall fuel,
  no_percent s = true ->
  (String.length s + 1 <= fuel)%nat ->
  remove_all_fuel fuel index_suffix (s +:+ index_suffix) = s.
Proof.
  induction s as [|c s IH]; intros fuel H Hf.
  - destruct fuel as [|fuel]; [lia|]. cbn. by destruct fuel.
  - destruct fuel as [|fuel]; [lia|].
    change (String c s +:+ index_suffix)
      with (String c (s +:+ index_suffix)).
    cbn [remove_all_fuel].
    assert (strip_prefix index_suffix (String c (s +:+ index_suffix)) = None)
      as ->.
    { unfold no_percent in H. cbn in H.
      apply andb_true_iff in H as [H _].
      unfold index_suffix. cbn [strip_prefix].
      destruct (Ascii.eqb "%" c) eqn:E; [|done].
      apply Ascii.eqb_eq in E as <-. done. }
    f_equal. apply IH; [|cbn in Hf; lia].
    unfold no_percent in *. cbn in H.
    by apply andb_true_iff in H as [_ H].
Qed.

Lemma length_append s1 s2 :
  String.length (s1 +:+ s2) = (String.length s1 + String.length s2)%nat.
Proof. induction s1 as [|c s1 IH]; [done|]. cbn. by rewrite <- IH. Qed.

Lemma labelled_has_percent s : no_percent (s +:+ index_suffix) = false.
Proof.
  induction s as [|c s IH]; [done|].
  change (no_percent (String c s +:+ index_suffix))
    with (negb (Ascii.eqb c "%") && no_percent (s +:+ index_suffix)).
  rewrite IH. apply andb_false_r.
Qed.

Lemma labelled_not_na s : (s +:+ index_suffix) ∉ na_values.
Proof.
  intros Hin.
  assert (Hna : Forall (fun v => no_percent v = true) na_values)
    by (by repeat constructor).
  rewrite Forall_forall in Hna. apply Hna in Hin.
  by rewrite labelled_has_percent in Hin.
Qed.

(** X18: cleaning an index label strips the unit: for a text [s] without a
    percent sign, the label [s] followed by "% of average wage" is cleaned
    to [s], and a label that is [s] alone is left as it is, so the number
    handed to [float] is the text before the unit. *)
Theorem index_label_cleaned
  (float : string -> option Q) (s : string) :
  no_percent s = true ->
  remove_all index_suffix (s +:+ index_suffix) = s /\
  remove_all index_suffix s = s /\
  index_label float (Text (s +:+ index_suffix)) = Some <$> float s.
Proof.
  intros H.
  assert (E : remove_all index_suffix (s +:+ index_suffix) = s).
  { unfold remove_all. apply remove_all_fuel_suffix; [done|].
    rewrite length_append. cbn. lia. }
  split; [exact E|]. split.
  - unfold remove_all. by apply remove_all_fuel_no_percent.
  - unfold index_label.
    rewrite bool_decide_eq_false_2 by apply labelled_not_na. by rewrite E.
Qed.

Lemma index_label_cleaned_witness :
  remove_all index_suffix ("50" +:+ index_suffix) = "50" /\
  remove_all index_suffix "50" = "50" /\
  index_label decimal_float (Text ("50" +:+ index_suffix))
  = Some <$> decimal_float "50".
Proof.
  apply (index_label_cleaned decimal_float "50"). reflexivity.
Defined.

Lemma last_valid_from_None_inv col : forall pos acc,
  last_valid_from pos col acc = None ->
  acc = None /\ forall m v, col !! m <> Some (Some v).
Proof.
  induction col as [|v col IH]; intros pos acc H.
  - split; [done|]. by intros m v.
  - destruct v as [v|]; cbn in H; apply IH in H as [Hacc Hcol]; [done|].
    split; [done|]. intros [|m] v; [done|]. apply Hcol.
Qed.

Lemma last_valid_from_Some_inv col : forall pos acc j a,
  last_valid_from pos col acc = Some (j, a) ->
  acc = Some (j, a) \/
  exists m, j = (pos + m)%nat /\ col !! m = Some (Some a).
Proof.
  induction col as [|v col IH]; intros pos acc j a H; [by left|].
  destruct v as [v|]; cbn in H; apply IH in H as [H|(m & -> & H)].
  - injection H as <- <-. right. exists 0%nat. split; [lia|done].
  - right. exists (S m). split; [lia|done].
  - by left.
  - right. exists (S m). split; [lia|done].
Qed.

Lemma prev_valid_None_inv col i :
  prev_valid col i = None ->
  forall j v, (j < i)%nat -> col !! j <> Some (Some v).
Proof.
  unfold prev_valid. intros H j v Hj Hv.
  apply last_valid_from_None_inv in H as [_ H].
  apply (H j v). by rewrite lookup_take_lt.
Qed.

Lemma prev_valid_Some_inv col i j a :
  prev_valid col i = Some (j, a) ->
  (j < i)%nat /\ col !! j = Some (Some a).
Proof.
  unfold prev_valid. intros H.
  apply last_valid_from_Some_inv in H as [H|(m & -> & H)]; [done|].
  cbn. destruct (decide (m < i)%nat) as [Hm|Hm].
  - by rewrite lookup_take_lt in H.
  - by rewrite lookup_take_ge in H by lia.
Qed.

(** A value of the filled column comes with a present value of the column at
    the same row or before it. *)
Lemma interpolate_column_Some_inv col i y :
  interpolate_column col !! i = Some (Some y) ->
  exists j v, (j <= i)%nat /\ col !! j = Some (Some v).
Proof.
  rewrite interpolate_column_lookup.
  destruct (col !! i) as [[v|]|] eqn:Hi; [| |done].
  - intros _. exists i, v. by split.
  - cbn. destruct (prev_valid col i) as [[j a]|] eqn:Hp; [|done].
    intros _. apply prev_valid_Some_inv in Hp as [Hj Ha].
    exists j, a. split; [lia|done].
Qed.

Lemma interpolate_column_None_inv col i :
  interpolate_column col !! i = Some None ->
  col !! i = Some None /\ prev_valid col i = None.
Proof.
  rewrite interpolate_column_lookup.
  destruct (col !! i) as [[v|]|] eqn:Hi; [done| |done].
  cbn. destruct (prev_valid col i) as [[j a]|]; [|done].
  by destruct (next_valid col i) as [[k b]|].
Qed.

Lemma interpolate_column_no_gap col :
  ~ gap_after_value (interpolate_column col).
Proof.
  intros (i & j & v & Hij & Hi & Hj).
  apply interpolate_column_Some_inv in Hi as (i0 & v0 & Hi0 & Hv0).
  apply interpolate_column_None_inv in Hj as [_ Hp].
  apply (prev_valid_None_inv col j Hp i0 v0); [lia|done].
Qed.

Lemma dfs_key_is_sheet float wb d s t :
  dfs float wb = Some d -> d !! s = Some t -> s ∈ sheet_names.
Proof.
  intros Hd Ht.
  assert (Hs : s ∈ dom d) by (apply elem_of_dom; by eexists).
  rewrite (dfs_dom _ _ _ Hd) in Hs. by apply elem_of_list_to_set in Hs.
Qed.

Lemma dfs_table_is_interpolated float wb d s t :
  dfs float wb = Some d -> d !! s = Some t ->
  exists tmp, t = interpolate tmp.
Proof.
  intros Hd Ht. pose proof (dfs_key_is_sheet _ _ _ _ _ Hd Ht) as Hs.
  destruct (dfs_lookup float wb d s Hd Hs) as (t' & Hl & Ht').
  assert (t' = t) as -> by congruence.
  unfold load_sheet in Hl.
  apply bind_Some in Hl as (ws & _ & Hl).
  apply bind_Some in Hl as (tmp & _ & Hl).
  injection Hl as <-. by exists tmp.
Qed.

(** X12: in every loaded table a series has no gap once it has started: no
    column holds a missing value at a row after one of its present values.
    The only missing values left are those before a column's first value. *)
Theorem loaded_series_have_no_gap
  (float : string -> option Q) (wb : gmap string worksheet)
  (d : gmap string table) (s : string) (t : table) (c : nat)
  (name : string) (col : list (option Q)) :
  dfs float wb = Some d -> d !! s = Some t ->
  columns t !! c = Some (name, col) ->
  ~ gap_after_value col.
Proof.
  intros Hd Ht Hc.
  destruct (dfs_table_is_interpolated _ _ _ _ _ Hd Ht) as [tmp ->].
  unfold interpolate in Hc. cbn [columns] in Hc.
  rewrite list_lookup_fmap in Hc.
  destruct (columns tmp !! c) as [[name0 col0]|]; [|done].
  injection Hc as <- <-. apply interpolate_column_no_gap.
Qed.

(** Japan's column of the first example sheet, which starts with a gap. *)
Lemma loaded_series_have_no_gap_witness :
  ~ gap_after_value [None; Some 20%Q; Some 30%Q].
Proof.
  eapply (loaded_series_have_no_gap decimal_float example_workbook example_dfs
            "single_no_children" _ 1%nat "Japan").
  - vm_compute. reflexivity.
  - vm_compute. reflexivity.
  - reflexivity.
Defined.

Lemma interpolate_column_idempotent col :
  interpolate_column (interpolate_column col) = interpolate_column col.
Proof.
  apply list_eq. intros i.
  rewrite (interpolate_column_lookup (interpolate_column col)).
  destruct (interpolate_column col !! i) as [[y|]|] eqn:Hi; [done| |done].
  cbn. rewrite prev_valid_none; [done| |].
  - apply lookup_lt_Some in Hi. lia.
  - intros j Hj.
    destruct (interpolate_column col !! j) as [[v|]|] eqn:Hv; [|done|].
    + exfalso. apply (interpolate_column_no_gap col).
      by exists j, i, v.
    + apply lookup_ge_None in Hv. apply lookup_lt_Some in Hi. lia.
Qed.

(** X13: filling the gaps a second time changes nothing, whatever the table
    (with or without missing values). *)
Theorem fill_idempotent (t : table) :
  interpolate (interpolate t) = interpolate t.
Proof.
  unfold interpolate. cbn [index columns]. f_equal.
  rewrite <- list_fmap_compose. apply list_fmap_ext.
  intros _ [name col] _. unfold compose. cbn [fst snd].
  by rewrite interpolate_column_idempotent.
Qed.



End AllIncomesTables.

(** ** Script 2: further properties of the figure *)

Module AllIncomesTraces.
Import AllIncomes AllIncomesLoader AllIncomesFigure AllIncomesDropdown.

Lemma sheet_names_NoDup : NoDup sheet_names.
Proof. apply (bool_decide_unpack _). by vm_compute. Qed.

Lemma colours_NoDup : NoDup colours.
Proof. apply (bool_decide_unpack _). by vm_compute. Qed.

Lemma red_not_in_colours : "red" ∉ colours.
Proof. apply (bool_decide_unpack _). by vm_compute. Qed.

(** Where the traces of a sheet come from. *)
Lemma sheet_traces_lookup default d sheet trs i tr :
  sheet_traces default d sheet = Some trs -> trs !! i = Some tr ->
  exists t col,
    d !! sheet = Some t /\ columns t !! i = Some col /\
    make_trace default sheet t i col = Some tr.
Proof.
  unfold sheet_traces. intros H Htr.
  apply bind_Some in H as (t & Ht & H).
  apply mapM_Some_1 in H.
  destruct (Forall2_lookup_r _ _ _ _ _ H Htr) as ([idx col] & Hic & Hmk).
  rewrite list_lookup_imap in Hic.
  destruct (columns t !! i) as [col'|] eqn:Hcol; [|done].
  injection Hic as <- <-. by exists t, col'.
Qed.

Lemma elem_of_concat {A} (x : A) (ls : list (list A)) :
  x ∈ concat ls -> exists l, x ∈ l /\ l ∈ ls.
Proof.
  induction ls as [|l ls IH]; cbn [concat]; intros H.
  - by apply elem_of_nil in H.
  - apply elem_of_app in H as [H|H].
    + exists l. split; [done|by left].
    + destruct (IH H) as (l' & ? & ?). exists l'. split; [done|by right].
Qed.

Lemma fig_trace_origin d trs tr :
  fig_traces d = Some trs -> tr ∈ trs ->
  exists sheet t idx col,
    sheet ∈ sheet_names /\ d !! sheet = Some t /\
    columns t !! idx = Some col /\
    make_trace "single_no_children" sheet t idx col = Some tr.
Proof.
  unfold fig_traces. rewrite default_sheet_eq. intros H Hin.
  apply bind_Some in H as (default & [= <-] & H).
  apply bind_Some in H as (per & Hper & [= <-]).
  apply elem_of_concat in Hin as (l & Hin & Hl).
  apply mapM_Some_1 in Hper.
  apply list_elem_of_lookup in Hl as [j Hl].
  destruct (Forall2_lookup_r _ _ _ _ _ Hper Hl) as (sheet & Hs & Hst).
  apply list_elem_of_lookup in Hin as [i Hi].
  destruct (sheet_traces_lookup _ _ _ _ _ _ Hst Hi) as (t & col & ? & ? & ?).
  exists sheet, t, i, col. split; [|done].
  by eapply list_elem_of_lookup_2.
Qed.

Lemma make_trace_text default sheet t idx col tr :
  make_trace default sheet t idx col = Some tr ->
  tr_x tr = index t /\ tr_name tr = fst col /\
  tr_text tr = replicate (length (index t) - 1) ""%string ++ [fst col] /\
  tr_textfont_color tr = tr_line_color tr /\
  Some (tr_line_color tr) = trace_colour idx (fst col).
Proof.
  unfold make_trace. destruct (trace_colour idx (fst col)); [|done].
  cbn [mbind option_bind]. by intros [= <-].
Qed.

(** X16: every trace of the figure carries its country's name as the text of
    its last point and an empty text at every point before; the text list is
    as long as the line has points, except that a sheet without rows gives a
    line without points whose text list still holds the name. *)
Theorem name_on_last_point
  (d : gmap string table) (trs : list trace) (i : nat) (tr : trace) :
  fig_traces d = Some trs -> trs !! i = Some tr ->
  last (tr_text tr) = Some (tr_name tr) /\
  (forall p, (S p < length (tr_text tr))%nat -> tr_text tr !! p = Some ""%string) /\
  (tr_x tr <> [] -> length (tr_text tr) = length (tr_x tr)) /\
  (tr_x tr = [] -> tr_text tr = [tr_name tr]).
Proof.
  intros Hfig Htr.
  destruct (fig_trace_origin d trs tr Hfig) as (sheet & t & idx & col & _ & _ & _ & Hmk);
    [by eapply list_elem_of_lookup_2|].
  apply make_trace_text in Hmk as (-> & -> & -> & _).
  split; [by rewrite last_snoc|]. split; [|split].
  - intros p Hp. rewrite length_app, length_replicate in Hp. cbn in Hp.
    rewrite lookup_app_l by (rewrite length_replicate; lia).
    apply lookup_replicate_2. lia.
  - intros Hne. rewrite length_app, length_replicate. cbn.
    destruct (index t); [done|]. cbn. lia.
  - by intros ->.
Qed.

Lemma name_on_last_point_witness :
  exists trs tr,
    fig_traces example_dfs = Some trs /\ trs !! 1%nat = Some tr /\
    last (tr_text tr) = Some (tr_name tr) /\
    (forall p, (S p < length (tr_text tr))%nat ->
               tr_text tr !! p = Some ""%string) /\
    (tr_x tr <> [] -> length (tr_text tr) = length (tr_x tr)) /\
    (tr_x tr = [] -> tr_text tr = [tr_name tr]).
Proof.
  eexists _, _.
  split; [vm_compute; reflexivity|]. split; [reflexivity|].
  eapply (name_on_last_point example_dfs _ 1%nat).
  - vm_compute. reflexivity.
  - reflexivity.
Defined.

(** X17: within a scenario the colour tells the countries apart: a trace is
    red exactly when it is the one of "United Kingdom", its text has the
    colour of its line, and two traces at different column positions have
    the same colour only when both are named "United Kingdom". *)
Theorem colours_tell_countries_apart
  (default : string) (d : gmap string table) (sheet : string)
  (trs : list trace) (i j : nat) (tr tr' : trace) :
  sheet_traces default d sheet = Some trs ->
  trs !! i = Some tr -> trs !! j = Some tr' ->
  (tr_line_color tr = "red" <-> tr_name tr = "United Kingdom") /\
  tr_textfont_color tr = tr_line_color tr /\
  (i <> j -> tr_line_color tr = tr_line_color tr' ->
   tr_name tr = "United Kingdom" /\ tr_name tr' = "United Kingdom").
Proof.
  intros Hst Hi Hj.
  destruct (sheet_traces_lookup _ _ _ _ _ _ Hst Hi) as (t & col & _ & _ & Hmk).
  destruct (sheet_traces_lookup _ _ _ _ _ _ Hst Hj)
    as (t' & col' & _ & _ & Hmk').
  apply make_trace_text in Hmk as (_ & Hn & _ & Hf & Hc).
  apply make_trace_text in Hmk' as (_ & Hn' & _ & _ & Hc').
  rewrite Hn, Hn'. unfold trace_colour, red_country in Hc, Hc'.
  assert (Hred : forall k nm (colour : string),
             Some colour = (if bool_decide (nm = "United Kingdom")
                            then Some "red"%string else colours !! k) ->
             colour = "red"%string <-> nm = "United Kingdom").
  { intros k nm colour H. case_bool_decide as Hnm.
    - injection H as ->. done.
    - split; [|done]. intros ->. exfalso. apply red_not_in_colours.
      by eapply list_elem_of_lookup_2. }
  split; [by eapply Hred|]. split; [done|].
  intros Hij Heq.
  pose proof (Hred _ _ _ Hc) as H1. pose proof (Hred _ _ _ Hc') as H2.
  destruct (decide (fst col = "United Kingdom")) as [Hnm|Hnm];
    [|destruct (decide (fst col' = "United Kingdom")) as [Hnm'|Hnm']].
  - split; [done|]. apply H2. rewrite <- Heq. by apply H1.
  - split; [|done]. apply H1. rewrite Heq. by apply H2.
  - exfalso. apply Hij.
    rewrite bool_decide_eq_false_2 in Hc, Hc' by done.
    eapply NoDup_lookup; [apply colours_NoDup|symmetry; exact Hc|].
    rewrite Heq. symmetry. exact Hc'.
Qed.

Lemma colours_tell_countries_apart_witness :
  exists trs tr tr',
    sheet_traces "single_no_children" example_dfs "single_no_children"
    = Some trs /\
    trs !! 0%nat = Some tr /\ trs !! 2%nat = Some tr' /\
    (tr_line_color tr = "red" <-> tr_name tr = "United Kingdom") /\
    tr_textfont_color tr = tr_line_color tr /\
    (0%nat <> 2%nat -> tr_line_color tr = tr_line_color tr' ->
     tr_name tr = "United Kingdom" /\ tr_name tr' = "United Kingdom").
Proof.
  eexists _, _, _.
  split; [vm_compute; reflexivity|].
  split; [reflexivity|]. split; [reflexivity|].
  eapply (colours_tell_countries_apart "single_no_children" example_dfs
            "single_no_children" _ 0%nat 2%nat).
  - vm_compute. reflexivity.
  - reflexivity.
  - reflexivity.
Defined.

Lemma trace_key_sheet d key :
  key ∈ trace_keys d -> fst key ∈ sheet_names.
Proof.
  unfold trace_keys. intros H.
  apply list_elem_of_bind in H as (s & H & Hs).
  unfold sheet_keys in H. destruct (d !! s); cbn in H.
  - apply list_elem_of_fmap in H as (country & -> & _). done.
  - by apply elem_of_nil in H.
Qed.

(** X15: every series is switched on by exactly one option of the dropdown:
    for each trace position, the mask of the button of the trace's own
    scenario has [True] or ['legendonly'] there, and the mask of every other
    button has [False]. *)
Theorem one_button_per_trace
  (float : string -> option Q) (wb : gmap string worksheet)
  (d : gmap string table) :
  dfs float wb = Some d ->
  exists trs bs,
    fig_traces d = Some trs /\ buttons d = Some bs /\
    forall i, (i < length trs)%nat ->
      exists j b,
        bs !! j = Some b /\
        (visible_arg b !! i = Some VisTrue \/
         visible_arg b !! i = Some VisLegendonly) /\
        forall j' b', j' <> j -> bs !! j' = Some b' ->
                      visible_arg b' !! i = Some VisFalse.
Proof.
  intros Hd. pose proof (dfs_loaded _ _ _ Hd) as Hl.
  destruct (dfs_figure _ _ _ Hd) as (trs & Htrs & _ & Hname).
  destruct (buttons_Some d Hl) as (bs & Hbs & HF).
  exists trs, bs. split; [done|]. split; [done|].
  intros i Hi.
  apply (f_equal length) in Hname. rewrite !length_fmap in Hname.
  destruct (lookup_lt_is_Some_2 (trace_keys d) i) as [[s country] Hkey];
    [lia|].
  assert (Hs : s ∈ sheet_names).
  { apply (trace_key_sheet d (s, country)). by eapply list_elem_of_lookup_2. }
  apply list_elem_of_lookup in Hs as [j Hj].
  destruct (Forall2_lookup_l _ _ _ _ _ HF Hj) as (b & Hb & _ & Hmask).
  exists j, b. split; [done|]. split.
  - rewrite Hmask, list_lookup_fmap, Hkey. cbn.
    unfold mask_entry_for. cbn. rewrite bool_decide_eq_true_2 by done.
    case_bool_decide; [by left|by right].
  - intros j' b' Hne Hb'.
    destruct (Forall2_lookup_r _ _ _ _ _ HF Hb') as (s' & Hj' & _ & ->).
    rewrite list_lookup_fmap, Hkey. cbn.
    unfold mask_entry_for. cbn. rewrite bool_decide_eq_false_2; [done|].
    intros ->. apply Hne.
    by eapply NoDup_lookup; [apply sheet_names_NoDup|..].
Qed.

Lemma one_button_per_trace_witness :
  exists trs bs,
    fig_traces example_dfs = Some trs /\ buttons example_dfs = Some bs /\
    forall i, (i < length trs)%nat ->
      exists j b,
        bs !! j = Some b /\
        (visible_arg b !! i = Some VisTrue \/
         visible_arg b !! i = Some VisLegendonly) /\
        forall j' b', j' <> j -> bs !! j' = Some b' ->
                      visible_arg b' !! i = Some VisFalse.
Proof.
  apply (one_button_per_trace decimal_float example_workbook example_dfs).
  vm_compute. reflexivity.
Defined.

End AllIncomesTraces.

(** ** Script 2: the limits of the x axis *)

Module AllIncomesAxis.
Import AllIncomes AllIncomesFigure.

Lemma Qle_bool_false x y : Qle_bool x y = false -> (y <= x)%Q.
Proof.
  intros H. apply Qlt_le_weak, Qnot_le_lt. intros Hle.
  apply Qle_bool_iff in Hle. congruence.
Qed.

(** The least number of an index. *)
Lemma index_min_cases t :
  (index_min t = None /\ forall x, Some x ∉ index t) \/
  (exists m, index_min t = Some m /\ Some m ∈ index t /\
             forall x, Some x ∈ index t -> (m <= x)%Q).
Proof.
  unfold index_min. induction (index t) as [|v l IH]; cbn [foldr].
  - left. split; [done|]. intros x H. by apply elem_of_nil in H.
  - destruct v as [x|].
    + right. destruct IH as [[-> Hnone]|(m & -> & Hin & Hmin)].
      * exists x. split; [done|]. split; [by left|].
        intros y Hy. apply elem_of_cons in Hy as [[= ->]|Hy]; [lra|].
        by apply Hnone in Hy.
      * destruct (Qle_bool x m) eqn:E.
        -- apply Qle_bool_iff in E. exists x. split; [done|].
           split; [by left|]. intros y Hy.
           apply elem_of_cons in Hy as [[= ->]|Hy]; [lra|].
           specialize (Hmin y Hy). lra.
        -- apply Qle_bool_false in E. exists m. split; [done|].
           split; [by right|]. intros y Hy.
           apply elem_of_cons in Hy as [[= ->]|Hy]; [done|]. by apply Hmin.
    + destruct IH as [[-> Hnone]|(m & -> & Hin & Hmin)].
      * left. split; [done|]. intros y Hy.
        apply elem_of_cons in Hy as [[=]|Hy]. by apply Hnone in Hy.
      * right. exists m. split; [done|]. split; [by right|].
        intros y Hy. apply elem_of_cons in Hy as [[=]|Hy]. by apply Hmin.
Qed.

(** The greatest number of an index. *)
Lemma index_max_cases t :
  (index_max t = None /\ forall x, Some x ∉ index t) \/
  (exists m, index_max t = Some m /\ Some m ∈ index t /\
             forall x, Some x ∈ index t -> (x <= m)%Q).
Proof.
  unfold index_max. induction (index t) as [|v l IH]; cbn [foldr].
  - left. split; [done|]. intros x H. by apply elem_of_nil in H.
  - destruct v as [x|].
    + right. destruct IH as [[-> Hnone]|(m & -> & Hin & Hmax)].
      * exists x. split; [done|]. split; [by left|].
        intros y Hy. apply elem_of_cons in Hy as [[= ->]|Hy]; [lra|].
        by apply Hnone in Hy.
      * destruct (Qle_bool m x) eqn:E.
        -- apply Qle_bool_iff in E. exists x. split; [done|].
           split; [by left|]. intros y Hy.
           apply elem_of_cons in Hy as [[= ->]|Hy]; [lra|].
           specialize (Hmax y Hy). lra.
        -- apply Qle_bool_false in E. exists m. split; [done|].
           split; [by right|]. intros y Hy.
           apply elem_of_cons in Hy as [[= ->]|Hy]; [done|]. by apply Hmax.
    + destruct IH as [[-> Hnone]|(m & -> & Hin & Hmax)].
      * left. split; [done|]. intros y Hy.
        apply elem_of_cons in Hy as [[=]|Hy]. by apply Hnone in Hy.
      * right. exists m. split; [done|]. split; [by right|].
        intros y Hy. apply elem_of_cons in Hy as [[=]|Hy]. by apply Hmax.
Qed.

(** [min] over numbers: the running candidate. *)
Lemma py_min_fold qs : forall best,
  exists m,
    foldl (fun best y => if float_lt y best then y else best)
          (Some best) (Some <$> qs) = Some m /\
    (m = best \/ m ∈ qs) /\ (m <= best)%Q /\
    forall x, x ∈ qs -> (m <= x)%Q.
Proof.
  induction qs as [|q qs IH]; intros best; cbn [fmap list_fmap foldl].
  - exists best. split; [done|]. split; [by left|]. split; [lra|].
    intros x H. by apply elem_of_nil in H.
  - unfold float_lt at 2. destruct (Qle_bool best q) eqn:E; cbn [negb].
    + apply Qle_bool_iff in E.
      destruct (IH best) as (m & -> & Hm & Hb & Hall).
      exists m. split; [done|]. split; [|split; [done|]].
      * destruct Hm as [->|Hm]; [by left|right; by right].
      * intros x Hx. apply elem_of_cons in Hx as [->|Hx]; [lra|by apply Hall].
    + apply Qle_bool_false in E.
      destruct (IH q) as (m & -> & Hm & Hb & Hall).
      exists m. split; [done|]. split; [|split; [lra|]].
      * right. destruct Hm as [->|Hm]; [by left|by right].
      * intros x Hx. apply elem_of_cons in Hx as [->|Hx]; [lra|by apply Hall].
Qed.

Lemma py_max_fold qs : forall best,
  exists m,
    foldl (fun best y => if float_lt best y then y else best)
          (Some best) (Some <$> qs) = Some m /\
    (m = best \/ m ∈ qs) /\ (best <= m)%Q /\
    forall x, x ∈ qs -> (x <= m)%Q.
Proof.
  induction qs as [|q qs IH]; intros best; cbn [fmap list_fmap foldl].
  - exists best. split; [done|]. split; [by left|]. split; [lra|].
    intros x H. by apply elem_of_nil in H.
  - unfold float_lt at 2. destruct (Qle_bool q best) eqn:E; cbn [negb].
    + apply Qle_bool_iff in E.
      destruct (IH best) as (m & -> & Hm & Hb & Hall).
      exists m. split; [done|]. split; [|split; [done|]].
      * destruct Hm as [->|Hm]; [by left|right; by right].
      * intros x Hx. apply elem_of_cons in Hx as [->|Hx]; [lra|by apply Hall].
    + apply Qle_bool_false in E.
      destruct (IH q) as (m & -> & Hm & Hb & Hall).
      exists m. split; [done|]. split; [|split; [lra|]].
      * right. destruct Hm as [->|Hm]; [by left|by right].
      * intros x Hx. apply elem_of_cons in Hx as [->|Hx]; [lra|by apply Hall].
Qed.

Lemma py_min_numbers q qs :
  exists m, py_min (Some <$> q :: qs) = Some (Some m) /\
            m ∈ q :: qs /\ forall x, x ∈ q :: qs -> (m <= x)%Q.
Proof.
  destruct (py_min_fold qs q) as (m & E & Hm & Hb & Hall).
  exists m. cbn [fmap list_fmap py_min]. split; [by rewrite <- E|].
  split.
  - destruct Hm as [->|Hm]; [by left|by right].
  - intros x Hx. apply elem_of_cons in Hx as [->|Hx]; [done|by apply Hall].
Qed.

Lemma py_max_numbers q qs :
  exists m, py_max (Some <$> q :: qs) = Some (Some m) /\
            m ∈ q :: qs /\ forall x, x ∈ q :: qs -> (x <= m)%Q.
Proof.
  destruct (py_max_fold qs q) as (m & E & Hm & Hb & Hall).
  exists m. cbn [fmap list_fmap py_max]. split; [by rewrite <- E|].
  split.
  - destruct Hm as [->|Hm]; [by left|by right].
  - intros x Hx. apply elem_of_cons in Hx as [->|Hx]; [done|by apply Hall].
Qed.

Lemma has_number_elem (l : list (option Q)) :
  existsb (fun v : option Q => bool_decide (is_Some v)) l = true ->
  exists x, Some x ∈ l.
Proof.
  intros H. apply existsb_exists in H as (v & Hin & Hv).
  apply bool_decide_eq_true in Hv as [x ->].
  exists x. by apply list_elem_of_In.
Qed.

(** The tables of a dict in which every sheet has numbers in its index. *)
Lemma all_indexed_values d :
  all_indexed d = true ->
  exists tables,
    dfs_values d = Some tables /\
    Forall2 (fun s t => d !! s = Some t /\ exists x, Some x ∈ index t)
            sheet_names tables.
Proof.
  intros H. unfold all_indexed in H. rewrite forallb_forall in H.
  apply mapM_Forall2. intros s Hs.
  specialize (H s ltac:(by apply list_elem_of_In)).
  destruct (d !! s) as [t|]; [|done]. cbn in H.
  exists t. split; [done|]. split; [done|]. by apply has_number_elem.
Qed.

Lemma mins_of_tables tables :
  Forall (fun t => exists x, Some x ∈ index t) tables ->
  exists qs,
    index_min <$> tables = Some <$> qs /\
    Forall2 (fun t q => Some q ∈ index t /\
                        forall x, Some x ∈ index t -> (q <= x)%Q)
            tables qs.
Proof.
  induction 1 as [|t tables [x Hx] _ (qs & E & HF)].
  - exists []. by split; [|constructor].
  - destruct (index_min_cases t) as [[_ Hnone]|(m & Hm & Hin & Hmin)];
      [by apply Hnone in Hx|].
    exists (m :: qs). split; [cbn; by rewrite Hm, E|]. by constructor.
Qed.

Lemma maxs_of_tables tables :
  Forall (fun t => exists x, Some x ∈ index t) tables ->
  exists qs,
    index_max <$> tables = Some <$> qs /\
    Forall2 (fun t q => Some q ∈ index t /\
                        forall x, Some x ∈ index t -> (x <= q)%Q)
            tables qs.
Proof.
  induction 1 as [|t tables [x Hx] _ (qs & E & HF)].
  - exists []. by split; [|constructor].
  - destruct (index_max_cases t) as [[_ Hnone]|(m & Hm & Hin & Hmax)];
      [by apply Hnone in Hx|].
    exists (m :: qs). split; [cbn; by rewrite Hm, E|]. by constructor.
Qed.

(** X19: when every sheet has numbers in its index, the limits of the x axis
    are numbers, [min_x] is the least and [max_x] the greatest income level
    of all scenarios (each is a level of some sheet, and every level of
    every sheet lies between them), and the padded upper limit is not below
    [max_x] when [max_x] is not negative: every point of every line is
    inside the axis range. *)
Theorem axis_range_holds_every_level (d : gmap string table) :
  all_indexed d = true ->
  exists lo hi ext,
    min_x d = Some (Some lo) /\ max_x d = Some (Some hi) /\
    extended_max_x d = Some (Some ext) /\
    (forall s t x,
       s ∈ sheet_names -> d !! s = Some t -> Some x ∈ index t ->
       (lo <= x <= hi)%Q) /\
    (exists s t, s ∈ sheet_names /\ d !! s = Some t /\ Some lo ∈ index t) /\
    (exists s t, s ∈ sheet_names /\ d !! s = Some t /\ Some hi ∈ index t) /\
    ((0 <= hi)%Q -> (hi <= ext)%Q).
Proof.
  intros H.
  destruct (all_indexed_values d H) as (tables & Hvals & HF).
  assert (Hnum : Forall (fun t => exists x, Some x ∈ index t) tables).
  { apply Forall_forall. intros t Ht.
    apply list_elem_of_lookup in Ht as [j Hj].
    by destruct (Forall2_lookup_r _ _ _ _ _ HF Hj) as (s & _ & _ & ?). }
  destruct (mins_of_tables tables Hnum) as (mins & Emin & Hmins).
  destruct (maxs_of_tables tables Hnum) as (maxs & Emax & Hmaxs).
  assert (Hlen : length tables = 4%nat)
    by (by rewrite <- (Forall2_length _ _ _ HF)).
  destruct mins as [|q0 mins];
    [apply Forall2_length in Hmins; rewrite Hlen in Hmins; done|].
  destruct maxs as [|p0 maxs];
    [apply Forall2_length in Hmaxs; rewrite Hlen in Hmaxs; done|].
  destruct (py_min_numbers q0 mins) as (lo & Hlo & Hloin & Hlomin).
  destruct (py_max_numbers p0 maxs) as (hi & Hhi & Hhiin & Hhimax).
  assert (Emin_x : min_x d = Some (Some lo)).
  { unfold min_x. rewrite Hvals. cbn [mbind option_bind]. by rewrite Emin. }
  assert (Emax_x : max_x d = Some (Some hi)).
  { unfold max_x. rewrite Hvals. cbn [mbind option_bind]. by rewrite Emax. }
  exists lo, hi, (hi * (1 + X_SPACING))%Q.
  split; [done|]. split; [done|].
  split; [unfold extended_max_x; by rewrite Emax_x|].
  assert (Htable : forall s t, s ∈ sheet_names -> d !! s = Some t ->
                               exists j, tables !! j = Some t).
  { intros s t Hs Ht. apply list_elem_of_lookup in Hs as [j Hj].
    destruct (Forall2_lookup_l _ _ _ _ _ HF Hj) as (t' & Hj' & Ht' & _).
    exists j. congruence. }
  assert (Hsheet : forall j t, tables !! j = Some t ->
                               exists s, s ∈ sheet_names /\ d !! s = Some t).
  { intros j t Hj.
    destruct (Forall2_lookup_r _ _ _ _ _ HF Hj) as (s & Hs & Ht & _).
    exists s. split; [by eapply list_elem_of_lookup_2|done]. }
  split; [|split; [|split]].
  - intros s t x Hs Ht Hx. destruct (Htable s t Hs Ht) as [j Hj].
    destruct (Forall2_lookup_l _ _ _ _ _ Hmins Hj) as (q & Hq & _ & Hqmin).
    destruct (Forall2_lookup_l _ _ _ _ _ Hmaxs Hj) as (p & Hp & _ & Hpmax).
    specialize (Hqmin x Hx). specialize (Hpmax x Hx).
    specialize (Hlomin q ltac:(by eapply list_elem_of_lookup_2)).
    specialize (Hhimax p ltac:(by eapply list_elem_of_lookup_2)).
    split; lra.
  - apply list_elem_of_lookup in Hloin as [j Hj].
    destruct (Forall2_lookup_r _ _ _ _ _ Hmins Hj) as (t & Ht & Hin & _).
    destruct (Hsheet j t Ht) as (s & Hs & Hd). by exists s, t.
  - apply list_elem_of_lookup in Hhiin as [j Hj].
    destruct (Forall2_lookup_r _ _ _ _ _ Hmaxs Hj) as (t & Ht & Hin & _).
    destruct (Hsheet j t Ht) as (s & Hs & Hd). by exists s, t.
  - intros H0. unfold X_SPACING.
    assert (E : (hi * (1 + (1 # 10)) == hi + hi * (1 # 10))%Q) by field.
    rewrite E. assert (0 <= hi * (1 # 10))%Q by (apply Qmult_le_0_compat; lra).
    lra.
Qed.

Lemma axis_range_holds_every_level_witness :
  exists lo hi ext,
    min_x example_dfs = Some (Some lo) /\
    max_x example_dfs = Some (Some hi) /\
    extended_max_x example_dfs = Some (Some ext) /\
    (forall s t x,
       s ∈ sheet_names -> example_dfs !! s = Some t -> Some x ∈ index t ->
       (lo <= x <= hi)%Q) /\
    (exists s t, s ∈ sheet_names /\ example_dfs !! s = Some t /\
                 Some lo ∈ index t) /\
    (exists s t, s ∈ sheet_names /\ example_dfs !! s = Some t /\
                 Some hi ∈ index t) /\
    ((0 <= hi)%Q -> (hi <= ext)%Q).
Proof.
  apply (axis_range_holds_every_level example_dfs).
  vm_compute. reflexivity.
Defined.

Lemma index_min_no_number t :
  existsb (fun v : option Q => bool_decide (is_Some v)) (index t) = false ->
  index_min t = None /\ index_max t = None.
Proof.
  intros H.
  assert (Hnone : forall x, Some x ∉ index t).
  { intros x Hx. apply not_true_iff_false in H. apply H.
    apply existsb_exists. exists (Some x).
    split; [by apply list_elem_of_In|]. apply bool_decide_eq_true. by eexists. }
  split.
  - destruct (index_min_cases t) as [[-> _]|(m & _ & Hin & _)]; [done|].
    by apply Hnone in Hin.
  - destruct (index_max_cases t) as [[-> _]|(m & _ & Hin & _)]; [done|].
    by apply Hnone in Hin.
Qed.

Lemma fold_from_nan (f : option Q -> option Q -> bool) l :
  (forall y, f y None = false) ->
  foldl (fun best y => if f y best then y else best) None l = None.
Proof. intros Hf. induction l as [|y l IH]; [done|]. cbn. by rewrite Hf. Qed.

Lemma fold_from_nan_flipped (f : option Q -> option Q -> bool) l :
  (forall y, f None y = false) ->
  foldl (fun best y => if f best y then y else best) None l = None.
Proof. intros Hf. induction l as [|y l IH]; [done|]. cbn. by rewrite Hf. Qed.

(** X20: an index without numbers in the first sheet makes the limits of the
    x axis NaN, whatever the other sheets hold: [min] and [max] keep their
    first item when it is NaN, since no comparison with NaN is true. *)
Theorem first_sheet_without_numbers_gives_nan
  (d : gmap string table) (t0 : table) (tables : list table) :
  dfs_values d = Some (t0 :: tables) ->
  existsb (fun v : option Q => bool_decide (is_Some v)) (index t0) = false ->
  min_x d = Some None /\ max_x d = Some None /\
  extended_max_x d = Some None.
Proof.
  intros Hvals H0. destruct (index_min_no_number t0 H0) as [Hmin Hmax].
  assert (Emax : max_x d = Some None).
  { unfold max_x. rewrite Hvals. cbn [mbind option_bind fmap list_fmap py_max].
    rewrite Hmax. f_equal. by apply fold_from_nan_flipped. }
  split; [|split; [done|]].
  - unfold min_x. rewrite Hvals. cbn [mbind option_bind fmap list_fmap py_min].
    rewrite Hmin. f_equal. apply fold_from_nan. by intros [y|].
  - unfold extended_max_x. by rewrite Emax.
Qed.

Lemma first_sheet_without_numbers_gives_nan_witness :
  min_x blank_index_dfs = Some None /\ max_x blank_index_dfs = Some None /\
  extended_max_x blank_index_dfs = Some None.
Proof.
  eapply (first_sheet_without_numbers_gives_nan blank_index_dfs).
  - vm_compute. reflexivity.
  - reflexivity.
Defined.

End AllIncomesAxis.
